(** * PyZwaver [command.py]: parsing and assembling application commands

    A shallow embedding of [pyzwaver/command.py] and the properties of
    its frame codec and value resolver.

    Conventions of the embedding
    - a Python [int] is a [Z]; [&], [|], [>>], [<<] and [~] are
      [Z.land], [Z.lor], [Z.shiftr], [Z.shiftl] and [Z.lnot];
    - a Python [float] is a primitive binary64 float;
    - a frame [m] is a Python list of integers, [list Z]; a cursor
      [index] is a [Z], subscripts and slices follow Python for negative
      and out-of-range positions;
    - a raised exception is [Raise e]; [return x] is [Ok x];
    - the argument [action] of [GetValue] is a list object that the
      function mutates: [GetValue] is written in a state monad over the
      contents of that list, and [GetValue_at] runs it on a reference
      into a store of list objects. *)

From Stdlib Require Import ZArith Ascii String DecimalString.
From Stdlib Require Import Floats.PrimFloat Floats.SpecFloat.
From Stdlib Require Floats.FloatOps.
From stdpp Require Import base option list gmap strings.

Local Open Scope Z_scope.

(** ** Outcomes of a Python call *)

Inductive exn : Set :=
| IndexError
| KeyError
| TypeError
| ValueError
| AssertionError
| OverflowError
| ZeroDivisionError
| UnicodeDecodeError
| NotModelled.  (* the call leaves the fragment of Python embedded here *)

Inductive result (A : Type) : Type :=
| Ok (a : A)
| Raise (e : exn).
Arguments Ok {A} a.
Arguments Raise {A} e.

#[global] Instance result_ret : MRet result := λ A a, Ok a.
#[global] Instance result_bind : MBind result := λ A B f r,
  match r with Ok a => f a | Raise e => Raise e end.
#[global] Instance result_fmap : FMap result := λ A B f r,
  match r with Ok a => Ok (f a) | Raise e => Raise e end.

Definition py_assert (b : bool) : result unit :=
  if b then Ok () else Raise AssertionError.

(** ** Python values *)

(** A [str] is its sequence of code points. *)
Definition pystr : Type := list Z.

Definition str (s : string) : pystr :=
  (λ c, Z.of_nat (nat_of_ascii c)) <$> list_ascii_of_string s.

#[warnings="-register-all"]
Inductive pyval : Type :=
| VNone
| VInt (z : Z)
| VFloat (f : float)
| VStr (s : pystr)
| VBytes (b : list Z)
| VList (l : list pyval)
| VSet (s : gset Z).

Definition is_None (v : pyval) : bool :=
  match v with VNone => true | _ => false end.

Definition is_list (v : pyval) : bool :=
  match v with VList _ => true | _ => false end.

Definition as_int (v : pyval) : result Z :=
  match v with VInt z => Ok z | _ => Raise TypeError end.

(** ** Sequences: [len], subscripts and slices *)

Definition len {A} (l : list A) : Z := Z.of_nat (length l).

(** [l[i]] *)
Definition getitem {A} (l : list A) (i : Z) : result A :=
  let j := if i <? 0 then i + len l else i in
  if j <? 0 then Raise IndexError
  else match l !! Z.to_nat j with
       | Some x => Ok x
       | None => Raise IndexError
       end.

(** A slice bound as Python clamps it. *)
Definition clamp {A} (l : list A) (i : Z) : Z :=
  if i <? 0 then Z.max 0 (i + len l) else Z.min i (len l).

(** [l[lo:hi]] *)
Definition slice {A} (l : list A) (lo hi : Z) : list A :=
  let a := clamp l lo in
  let b := clamp l hi in
  take (Z.to_nat (b - a)) (drop (Z.to_nat a) l).

(** [l[lo:]] *)
Definition slice_from {A} (l : list A) (lo : Z) : list A :=
  drop (Z.to_nat (clamp l lo)) l.

(** [len(v)], [v[i]] and [v[lo:]] on a value. *)
Definition py_len (v : pyval) : result Z :=
  match v with
  | VStr s => Ok (len s)
  | VBytes b => Ok (len b)
  | VList l => Ok (len l)
  | VSet s => Ok (Z.of_nat (size s))
  | _ => Raise TypeError
  end.

Definition py_getitem (v : pyval) (i : Z) : result pyval :=
  match v with
  | VStr s => c ← getitem s i; Ok (VStr [c])
  | VBytes b => VInt <$> getitem b i
  | VList l => getitem l i
  | _ => Raise TypeError
  end.

Definition py_slice_from (v : pyval) (lo : Z) : result pyval :=
  match v with
  | VStr s => Ok (VStr (slice_from s lo))
  | VBytes b => Ok (VBytes (slice_from b lo))
  | VList l => Ok (VList (slice_from l lo))
  | _ => Raise TypeError
  end.

(** [bytes(l)] of a list of integers. *)
Definition py_bytes (l : list Z) : result (list Z) :=
  if forallb (λ b, (0 <=? b) && (b <? 256)) l then Ok l else Raise ValueError.

(** ** Floats *)

(** [float(z)]: the nearest binary64, ties to even; too large an integer
    raises. *)
Definition float_of_int (z : Z) : result float :=
  match binary_normalize FloatOps.prec FloatOps.emax z 0 false with
  | S754_infinity _ => Raise OverflowError
  | sf => Ok (FloatOps.SF2Prim sf)
  end.

(** [x / n] for a float [x] and an integer [n]. *)
Definition float_div_int (x : float) (n : Z) : result float :=
  y ← float_of_int n;
  if PrimFloat.eqb y 0 then Raise ZeroDivisionError else Ok (x / y)%float.

(** ** [bytes.decode] for the three codecs of [_ENCODING_TO_DECODER] *)

Definition decode_ascii (b : list Z) : result pystr :=
  if forallb (λ c, c <? 128) b then Ok b else Raise UnicodeDecodeError.

Definition decode_latin1 (b : list Z) : result pystr := Ok b.

Definition is_high_surrogate (u : Z) : bool := (0xD800 <=? u) && (u <=? 0xDBFF).
Definition is_low_surrogate (u : Z) : bool := (0xDC00 <=? u) && (u <=? 0xDFFF).

(** Big-endian code units, two bytes each; a surrogate pair is one code
    point; an odd byte or an unpaired surrogate is an error. *)
Fixpoint decode_utf_16_be (b : list Z) : result pystr :=
  match b with
  | [] => Ok []
  | [_] => Raise UnicodeDecodeError
  | h :: l :: rest =>
      let u := h * 256 + l in
      if is_low_surrogate u then Raise UnicodeDecodeError
      else if is_high_surrogate u then
        match rest with
        | h2 :: l2 :: rest' =>
            let u2 := h2 * 256 + l2 in
            if is_low_surrogate u2 then
              s ← decode_utf_16_be rest';
              Ok ((0x10000 + Z.shiftl (u - 0xD800) 10 + (u2 - 0xDC00)) :: s)
            else Raise UnicodeDecodeError
        | _ => Raise UnicodeDecodeError
        end
      else s ← decode_utf_16_be rest; Ok (u :: s)
  end.

Inductive codec : Set := ascii_codec | latin1_codec | utf_16_be_codec.

Definition _ENCODING_TO_DECODER : list codec :=
  [ascii_codec; latin1_codec; utf_16_be_codec].

Definition bytes_decode (b : list Z) (c : codec) : result pystr :=
  match c with
  | ascii_codec => decode_ascii b
  | latin1_codec => decode_latin1 b
  | utf_16_be_codec => decode_utf_16_be b
  end.

(** ** Signed values and readings *)

(** The loop of [_GetSignedValue]: [i] runs over [range(size)]. *)
Fixpoint signed_loop (m : list Z) (index : Z) (negative : bool)
    (i : Z) (n : nat) (value : Z) : result Z :=
  match n with
  | O => Ok value
  | S n' =>
      let value := Z.shiftl value 8 in
      b ← getitem m (index + i);
      let value := if negative then value + Z.lnot b else value + b in
      signed_loop m index negative (i + 1) n' value
  end.

Definition _GetSignedValue (m : list Z) (index size : Z) : result float :=
  let value := 0 in
  b0 ← getitem m index;
  let negative := negb (Z.land b0 0x80 =? 0) in
  value ← signed_loop m index negative 0 (Z.to_nat size) value;
  if negative then
    let value := value + 1 in
    f ← float_of_int value; Ok (- f)%float
  else float_of_int value.

Definition _GetReading (m : list Z) (index units_extra : Z)
    : result (Z * (Z * float)) :=
  b ← getitem m index;
  let size := Z.land b 0x7 in
  let units := Z.lor (Z.shiftr (Z.land b 0x18) 3) units_extra in
  let precision := Z.shiftr (Z.land b 0xe0) 5 in
  v ← _GetSignedValue m (index + 1) size;
  value ← float_div_int v (10 ^ precision);
  Ok (index + 1 + size, (units, value)).

Definition _GetTimeDelta (m : list Z) (index : Z) : result (Z * Z) :=
  a ← getitem m index;
  b ← getitem m (index + 1);
  Ok (index + 2, a * 256 + b).

Definition _ExtractValues (m : list Z) (index units_extra : Z)
    : result (Z * list pyval) :=
  let unit := VNone in
  let val1 := VNone in
  let dt := VNone in
  let val2 := VNone in
  if len m <=? index then Ok (index, [val1; dt; val2])
  else
    '(index, (unit, val1)) ← _GetReading m index units_extra;
    '(index, dt) ← (if index + 1 <? len m
                    then '(i, d) ← _GetTimeDelta m index; Ok (i, VInt d)
                    else Ok (index, dt));
    '(index, val2) ← (if index <? len m
                      then '(i, (_, v)) ← _GetReading m index units_extra;
                           Ok (i, VFloat v)
                      else Ok (index, val2));
    Ok (index, [VInt unit; VFloat val1; dt; val2]).

Definition _ParseMeter (m : list Z) (index : Z) : result (Z * pyval) :=
  b ← getitem m index;
  let units_extra := Z.shiftr (Z.land b 0x80) 5 in
  let meter_type := Z.land b 0x1f in
  '(index, val) ← _ExtractValues m (index + 1) units_extra;
  Ok (index, VList (VInt meter_type :: val)).

(** ** The field parsers

    Every parser maps a frame and a cursor to the new cursor and the
    decoded field; the field [None] tells [ParseCommand] that the frame
    is malformed. *)

Definition parser : Type := list Z → Z → result (Z * pyval).

Definition _ParseByte : parser := λ m index,
  if len m <=? index then Ok (index, VNone)
  else b ← getitem m index; Ok (index + 1, VInt b).

Definition _ParseWord : parser := λ m index,
  if len m <=? index + 1 then Ok (index, VNone)
  else
    a ← getitem m index;
    b ← getitem m (index + 1);
    Ok (index + 2, VInt (a * 256 + b)).

Definition _ParseName : parser := λ m index,
  _ ← py_assert (index <? len m);
  b0 ← getitem m index;
  let encoding := Z.land b0 3 in
  b ← py_bytes (slice_from m (index + 1));
  c ← getitem _ENCODING_TO_DECODER encoding;
  s ← bytes_decode b c;
  Ok (len m, VStr s).

(** The subscript [m[index + 1, size]] is a subscript by a tuple, which
    a list refuses. *)
Definition _ParseStringWithLength : parser := λ m index,
  size ← getitem m index;
  let new_index := 1 + size + index in
  Raise TypeError.

Definition _ParseStringWithLengthAndEncoding : parser := λ m index,
  b0 ← getitem m index;
  let encoding := Z.shiftr b0 5 in
  b1 ← getitem m index;
  let size := Z.land b1 0x1f in
  b ← py_bytes (slice m (index + 1) (index + size));
  Ok (1 + size, VList [VInt encoding; VBytes b]).

Definition _ParseListRest : parser := λ m index,
  let size := len m - index in
  Ok (index + size, VList (VInt <$> slice m index (index + size))).

(** The inner loop of [_ExtractBitVector]: [j] runs over [range(8)]. *)
Fixpoint bits_of_byte (b i offset : Z) (j : Z) (n : nat) (bits : gset Z)
    : gset Z :=
  match n with
  | O => bits
  | S n' =>
      let bits :=
        if negb (Z.land b (Z.shiftl 1 j) =? 0)
        then {[ j + i * 8 + offset ]} ∪ bits else bits in
      bits_of_byte b i offset (j + 1) n' bits
  end.

(** The outer loop: [i] runs over [range(len(data))]. *)
Fixpoint bits_of_bytes (data : list Z) (offset : Z) (i : Z) (bits : gset Z)
    : gset Z :=
  match data with
  | [] => bits
  | b :: data' =>
      bits_of_bytes data' offset (i + 1) (bits_of_byte b i offset 0 8 bits)
  end.

Definition _ExtractBitVector (data : list Z) (offset : Z) : gset Z :=
  bits_of_bytes data offset 0 ∅.

Definition _ParseBitVector : parser := λ m index,
  size ← getitem m index;
  Ok (index + 1 + size,
      VSet (_ExtractBitVector (slice m (index + 1) (index + 1 + size)) 0)).

Definition _ParseBitVectorRest : parser := λ m index,
  let size := len m - index in
  Ok (index + size, VSet (_ExtractBitVector (slice_from m index) 0)).

Definition _ParseNonce : parser := λ m index,
  let size := 8 in
  if len m <? index + size then Ok (index, VNone)
  else Ok (index + size, VList (VInt <$> slice m index (index + size))).

Definition _ParseDataRest : parser := λ m index,
  let size := len m - index in
  Ok (index + size, VList (VInt <$> slice m index (index + size))).

Fixpoint little_endian_loop (m : list Z) (x shift : Z) : Z :=
  match m with
  | [] => x
  | i :: m' => little_endian_loop m' (x + Z.shiftl i shift) (shift + 8)
  end.

Definition _GetIntLittleEndian (m : list Z) : Z := little_endian_loop m 0 0.

Fixpoint big_endian_loop (m : list Z) (x : Z) : Z :=
  match m with
  | [] => x
  | i :: m' => big_endian_loop m' (Z.shiftl x 8 + i)
  end.

Definition _GetIntBigEndian (m : list Z) : Z := big_endian_loop m 0.

Definition _ParseRestLittleEndianInt : parser := λ m index,
  let size := len m - index in
  Ok (index + size, VInt (_GetIntLittleEndian (slice m index (index + size)))).

Definition _ParseSensor : parser := λ m index,
  if len m <? index + 2 then Ok (index, VNone)
  else
    c ← getitem m index;
    let precision := Z.land (Z.shiftr c 5) 7 in
    let scale := Z.land (Z.shiftr c 3) 3 in
    let size := Z.land c 7 in
    if len m <? index + 1 + size then Ok (index, VNone)
    else
      v ← _GetSignedValue m (index + 1) size;
      value ← float_div_int v (10 ^ precision);
      Ok (index + 1 + size, VList [VInt scale; VFloat value]).

Definition _ParseValue : parser := λ m index,
  b ← getitem m index;
  let size := Z.land b 0x7 in
  let start := index + 1 in
  Ok (index + 1 + size,
      VList [VInt size; VInt (_GetIntBigEndian (slice m start (start + size)))]).

Definition _ParseDate : parser := λ m index,
  if len m <? index + 7 then Ok (len m, VNone)
  else
    y1 ← getitem m index;
    y0 ← getitem m (index + 1);
    let year := y1 * 256 + y0 in
    month ← getitem m (index + 2);
    day ← getitem m (index + 3);
    hour ← getitem m (index + 4);
    min ← getitem m (index + 5);
    sec ← getitem m (index + 6);
    Ok (index + 7,
        VList [VInt year; VInt month; VInt day; VInt hour; VInt min; VInt sec]).

Definition _PARSE_ACTIONS (tag : ascii) : option parser :=
  if decide (tag = "A"%char) then Some _ParseStringWithLength
  else if decide (tag = "F"%char) then Some _ParseStringWithLengthAndEncoding
  else if decide (tag = "B"%char) then Some _ParseByte
  else if decide (tag = "C"%char) then Some _ParseDate
  else if decide (tag = "N"%char) then Some _ParseName
  else if decide (tag = "L"%char) then Some _ParseListRest
  else if decide (tag = "R"%char) then Some _ParseRestLittleEndianInt
  else if decide (tag = "W"%char) then Some _ParseWord
  else if decide (tag = "V"%char) then Some _ParseValue
  else if decide (tag = "M"%char) then Some _ParseMeter
  else if decide (tag = "O"%char) then Some _ParseNonce
  else if decide (tag = "D"%char) then Some _ParseDataRest
  else if decide (tag = "T"%char) then Some _ParseBitVector
  else if decide (tag = "U"%char) then Some _ParseBitVectorRest
  else if decide (tag = "X"%char) then Some _ParseSensor
  else None.

(** ** The frame codec *)

(** A schema entry is a string such as [B{level}]; [t[0]] is its tag. *)
Definition tag_of (t : string) : result ascii :=
  match t with
  | String c _ => Ok c
  | EmptyString => Raise IndexError
  end.

Definition schema : Type := list string.

(** [data += v] for an argument [v]: a frame holds integers, so [v] is a
    list of integers or a [bytes]; anything else would put other objects
    in the frame and is outside the embedding. *)
Fixpoint ints_of (l : list pyval) : option (list Z) :=
  match l with
  | [] => Some []
  | VInt z :: l' => (z ::.) <$> ints_of l'
  | _ => None
  end.

Definition extend_with (data : list Z) (v : pyval) : result (list Z) :=
  match v with
  | VBytes b => Ok (data ++ b)
  | VList l =>
      match ints_of l with
      | Some zs => Ok (data ++ zs)
      | None => Raise NotModelled
      end
  | VStr _ | VSet _ => Raise NotModelled
  | _ => Raise TypeError
  end.

(** [data.append(v)], under the same restriction. *)
Definition append_value (data : list Z) (v : pyval) : result (list Z) :=
  match v with
  | VInt z => Ok (data ++ [z])
  | _ => Raise NotModelled
  end.

(** The loop of [_MakeValue]: [shift] steps down by 8 while it is not
    negative.  [n] bounds the number of rounds; from [(size - 1) * 8],
    [size] rounds bring [shift] below 0 (lemma [make_value_loop_fuel]). *)
Fixpoint make_value_loop (value shift : Z) (n : nat) (data : list Z) : list Z :=
  match n with
  | O => data
  | S n' =>
      if 0 <=? shift
      then make_value_loop value (shift - 8) n'
             (data ++ [Z.land 0xff (Z.shiftr value shift)])
      else data
  end.

Definition _MakeValue (conf value : Z) : result (list Z) :=
  let size := Z.land conf 7 in
  _ ← py_assert ((size =? 1) || (size =? 2) || (size =? 4));
  let data := [conf] in
  let shift := (size - 1) * 8 in
  Ok (make_value_loop value shift (Z.to_nat size) data).

Definition _MakeDate (date : pyval) : result (list Z) :=
  d0 ← py_getitem date 0 ≫= as_int;
  d1 ← py_getitem date 1 ≫= as_int;
  d2 ← py_getitem date 2 ≫= as_int;
  d3 ← py_getitem date 3 ≫= as_int;
  d4 ← py_getitem date 4 ≫= as_int;
  d5 ← py_getitem date 5 ≫= as_int;
  Ok [d0 `div` 256; d0 `mod` 256; d1; d2; d3; d4; d5].

Section Codec.

(** Modelled from the spec: the registry [zwave.SUBCMD_TO_PARSE_TABLE]
    is not part of [command.py].  The spec gives its interface as
    [lookup(class, command) -> Option<Schema>]; [command.py] subscripts
    it with the key [class * 256 + command] and tests the result
    against [None].  [None] below is that Python [None], the answer
    for a key that has no schema. *)
Variable SUBCMD_TO_PARSE_TABLE : Z → option schema.

Definition _GetParameterDescriptors (m : list Z) : result (option schema) :=
  if len m <? 2 then Ok None
  else
    m0 ← getitem m 0;
    m1 ← getitem m 1;
    let key := m0 * 256 + m1 in
    Ok (SUBCMD_TO_PARSE_TABLE key).

(** The loop of [ParseCommand] over the entries of [table]. *)
Fixpoint parse_fields (table : schema) (m : list Z) (index : Z)
    (out : list pyval) : result pyval :=
  match table with
  | [] => Ok (VList out)
  | t :: table' =>
      c ← tag_of t;
      match _PARSE_ACTIONS c with
      | None => Raise KeyError
      | Some parse =>
          '(new_index, value) ← parse m index;
          if is_None value then Ok VNone
          else parse_fields table' m new_index (out ++ [value])
      end
  end.

Definition ParseCommand (m : list Z) : result pyval :=
  table ← _GetParameterDescriptors m;
  match table with
  | None => Ok (VList [])
  | Some table =>
      let out := [] in
      let index := 2 in
      parse_fields table m index out
  end.

(** One round of the loop of [AssembleCommand], for the entry [t] and
    the argument [v]. *)
Definition assemble_field (t : string) (v : pyval) (data : list Z)
    : result (list Z) :=
  c ← tag_of t;
  if decide (c = "B"%char) then append_value data v
  else if decide (c = "Y"%char) then
    if negb (is_None v) then append_value data v else Ok data
  else if decide (c = "N"%char) then Ok (data ++ [1])
  else if decide (c = "K"%char) then
    n ← py_len v;
    _ ← py_assert (n =? 16);
    extend_with data v
  else if decide (c = "D"%char) then extend_with data v
  else if decide (c = "S"%char) then Raise AssertionError
  else if decide (c = "L"%char) then extend_with data v
  else if decide (c = "C"%char) then
    d ← _MakeDate v; Ok (data ++ d)
  else if decide (c = "O"%char) then
    n ← py_len v;
    extend_with data v
  else if decide (c = "V"%char) then
    v0 ← py_getitem v 0 ≫= as_int;
    v1 ← py_getitem v 1 ≫= as_int;
    d ← _MakeValue v0 v1; Ok (data ++ d)
  else Raise AssertionError.

(** The loop: [i] runs over [range(len(table))]. *)
Fixpoint assemble_fields (table : schema) (raw_cmd : list pyval) (i : Z)
    (data : list Z) : result (list Z) :=
  match table with
  | [] => Ok data
  | t :: table' =>
      v ← getitem raw_cmd (i + 2);
      data ← assemble_field t v data;
      assemble_fields table' raw_cmd (i + 1) data
  end.

Definition AssembleCommand (raw_cmd : list pyval) : result (list Z) :=
  c0 ← getitem raw_cmd 0 ≫= as_int;
  c1 ← getitem raw_cmd 1 ≫= as_int;
  match SUBCMD_TO_PARSE_TABLE (c0 * 256 + c1) with
  | None => Raise AssertionError
  | Some table =>
      let data := [] in
      let data := data ++ [c0] in
      let data := data ++ [c1] in
      assemble_fields table raw_cmd 0 data
  end.

End Codec.

(** ** Unit tables *)

Definition UNIT_LEVEL : pystr := str "level".
Definition UNIT_NONE : pystr := str "".

Definition SENSOR_KIND_INVALID : pystr := str "@invalid@".
Definition SENSOR_KIND_ELECTRIC : pystr := str "Electric".
Definition SENSOR_KIND_GAS : pystr := str "Gas".
Definition SENSOR_KIND_WATER : pystr := str "Water".
Definition SENSOR_KIND_TEMPERTATURE : pystr := str "Temperature".
Definition SENSOR_KIND_RELATIVE_HUMIDITY : pystr := str "Relative Humidity".

Definition VALUE_TYPE_LIST : pystr := str "ItemList".
Definition VALUE_TYPE_SCALAR : pystr := str "ItemScalar".
Definition VALUE_TYPE_CONST : pystr := str "ItemConst".
Definition VALUE_TYPE_MAP_LIST : pystr := str "ItemMapList".
Definition VALUE_TYPE_MAP_SCALAR : pystr := str "ItemMapScalar".
Definition VALUE_TYPE_SENSOR_NORMAL : pystr := str "ItemSensorNormal".
Definition VALUE_TYPE_SENSOR_VALUE : pystr := str "ItemSensorValue".
Definition VALUE_TYPE_METER_NORMAL : pystr := str "ItemMeterNormal".

(** A row [[kind, [unit, ...]]]; a unit is a string or [None]. *)
Definition unit_row : Type := pystr * list (option pystr).

Definition row (kind : pystr) (units : list (option string)) : unit_row :=
  (kind, List.map (option_map str) units).

Definition METER_TYPES : list unit_row := [
  row SENSOR_KIND_INVALID [None; None; None; None; None; None; None; None];
  row SENSOR_KIND_ELECTRIC [Some "kWh"; Some "kVAh"; Some "W"; Some "Pulses";
                            Some "V"; Some "A"; Some "Power-Factor"; None];
  row SENSOR_KIND_GAS [Some "m^3"; Some "ft^3"; None; Some "Pulses";
                       None; None; None; None];
  row SENSOR_KIND_WATER [Some "m^3"; Some "ft^3"; None; Some "Pulses";
                         None; None; None; None]
]%string.

Definition SENSOR_TYPES : list unit_row := [
  row SENSOR_KIND_INVALID [None; None; None; None];
  row SENSOR_KIND_TEMPERTATURE [Some "C"; Some "F"; None; None];
  row (str "General") [Some "%"; None; None; None];
  row (str "Luminance") [Some "%"; Some "lux"; None; None];
  row (str "Power") [Some "W"; Some "BTU/h"; None; None];
  row SENSOR_KIND_RELATIVE_HUMIDITY [Some "%"; None; None; None];
  row (str "Velocity") [Some "m/s"; Some "mph"; None; None];
  row (str "Direction") [Some ""; Some ""; None; None];
  row (str "Atmospheric Pressure") [Some "kPa"; Some "inHg"; None; None];
  row (str "Barometric Pressure") [Some "kPa"; Some "inHg"; None; None];
  row (str "Solar Radiation") [Some "W/m2"; None; None; None];
  row (str "Dew Point") [Some "C"; Some "F"; None; None];
  row (str "Rain Rate") [Some "mm/h"; Some "in/h"; None; None];
  row (str "Tide Level") [Some "m"; Some "ft"; None; None];
  row (str "Weight") [Some "kg"; Some "lb"; None; None];
  row (str "Voltage") [Some "kg"; Some "lb"; None; None];
  row (str "Current") [Some "A"; Some "mA"; None; None];
  row (str "CO2 Level") [Some "ppm"; None; None; None];
  row (str "Air Flow") [Some "m3/h"; Some "cfm"; None; None];
  row (str "Tank Capacity") [Some "l"; Some "cbm"; Some "gal"; None];
  row (str "Distance") [Some "m"; Some "cm"; Some "ft"; None];
  row (str "Angle Position") [Some "%"; Some "deg N"; Some "deg S"; None];
  row (str "Rotation") [Some "rpm"; Some "Hz"; None; None];
  row (str "Water Temperature") [Some "C"; Some "F"; None; None];
  row (str "Soil Temperature") [Some "C"; Some "F"; None; None];
  row (str "Seismic Intensity")
      [Some "mercalli"; Some "EU macroseismic"; Some "liedu"; Some "shindo"];
  row (str "Seismic Magnitude")
      [Some "local"; Some "moment"; Some "surface wave"; Some "body wave"];
  row (str "Utraviolet") [Some ""; Some ""; None; None];
  row (str "Electrical Resistivity") [Some "ohm"; None; None; None];
  row (str "Electrical Conductivity") [Some "siemens/m"; None; None; None];
  row (str "Loudness") [Some "db"; Some "dbA"; None; None];
  row (str "Moisture")
      [Some "%"; Some "content"; Some "k ohms"; Some "water activity"]
]%string.

(** ** The value resolver *)

Record Value : Type := mkValue {
  Value_kind : pyval;
  Value_unit : pyval;
  Value_value : pyval;
  Value_meter_prev : pyval;
  Value_meter_time_delta : pyval
}.

(** [Value(kind, unit, value, meter_time_delta=0, meter_prev=0.0)] *)
Definition new_Value (kind unit value : pyval) : Value :=
  mkValue kind unit value (VFloat 0) (VInt 0).

Definition new_meter_Value (kind unit value meter_time_delta meter_prev : pyval)
    : Value :=
  mkValue kind unit value meter_prev meter_time_delta.

(** [GetValue] pops entries off the list [action] it is given.  A
    computation of type [act A] reads and writes the contents of that
    list; what it leaves there stays, also when it raises. *)
Definition act (A : Type) : Type := list pyval → result A * list pyval.

#[global] Instance act_ret : MRet act := λ A a s, (Ok a, s).
#[global] Instance act_bind : MBind act := λ A B f c s,
  match c s with
  | (Ok a, s') => f a s'
  | (Raise e, s') => (Raise e, s')
  end.

Definition lift {A} (r : result A) : act A := λ s, (r, s).

(** [action.pop(0)] *)
Definition pop0 : act pyval := λ s,
  match s with
  | [] => (Raise IndexError, [])
  | x :: s' => (Ok x, s')
  end.

(** [action[i]] *)
Definition action_item (i : Z) : act pyval := λ s, (getitem s i, s).

(** [t == s] for a string constant [s]. *)
Definition eq_str (t : pyval) (s : pystr) : bool :=
  match t with
  | VStr s' => bool_decide (s' = s)
  | _ => false
  end.

(** [a, b = v] once [len(v) == 2] is known; the order in which a set
    yields its elements is not fixed by Python. *)
Definition py_unpack2 (v : pyval) : result (pyval * pyval) :=
  match v with
  | VSet _ => Raise NotModelled
  | _ =>
      n ← py_len v;
      if n =? 2 then
        a ← py_getitem v 0; b ← py_getitem v 1; Ok (a, b)
      else Raise ValueError
  end.

Definition unit_val (u : option pystr) : pyval :=
  match u with Some s => VStr s | None => VNone end.

(** [info[1][scale]] for a row [info] *)
Definition row_unit (info : unit_row) (scale : pyval) : result pyval :=
  i ← as_int scale;
  unit_val <$> getitem info.2 i.

(** The chain of [if]/[elif] of [GetValue] on the tag [t] it has popped. *)
Definition GetValue_branches (t value : pyval) : act Value :=
  if eq_str t VALUE_TYPE_SCALAR then
    n ← lift (py_len value);
    _ ← lift (py_assert (n =? 1));
    v0 ← lift (py_getitem value 0);
    _ ← lift (py_assert (negb (is_list v0)));
    kind ← pop0;
    mret (new_Value kind (VStr UNIT_NONE) v0)
  else if eq_str t VALUE_TYPE_LIST then
    _ ← lift (py_assert (is_list value));
    kind ← pop0;
    mret (new_Value kind (VStr UNIT_NONE) value)
  else if eq_str t VALUE_TYPE_CONST then
    kind ← pop0;
    val ← pop0;
    mret (new_Value kind (VStr UNIT_NONE) val)
  else if eq_str t VALUE_TYPE_SENSOR_VALUE then
    kind ← pop0;
    unit ← pop0;
    n ← lift (py_len value);
    _ ← lift (py_assert (n =? 1));
    v0 ← lift (py_getitem value 0);
    mret (new_Value kind unit v0)
  else if eq_str t VALUE_TYPE_SENSOR_NORMAL then
    n ← lift (py_len value);
    _ ← lift (py_assert (n =? 2));
    kind ← lift (py_getitem value 0);
    info ← lift (as_int kind ≫= getitem SENSOR_TYPES);
    v1 ← lift (py_getitem value 1);
    n1 ← lift (py_len v1);
    _ ← lift (py_assert (n1 =? 2));
    '(scale, reading) ← lift (py_unpack2 v1);
    unit ← lift (row_unit info scale);
    _ ← lift (py_assert (negb (is_None unit)));
    mret (new_Value (VStr info.1) unit reading)
  else if eq_str t VALUE_TYPE_MAP_LIST then
    kind ← pop0;
    v0 ← lift (py_getitem value 0);
    a2 ← action_item 2;
    rest ← lift (py_slice_from value 1);
    mret (new_Value v0 a2 rest)
  else if eq_str t VALUE_TYPE_MAP_SCALAR then
    v0 ← lift (py_getitem value 0);
    a2 ← action_item 2;
    v1 ← lift (py_getitem value 1);
    mret (new_Value v0 a2 v1)
  else if eq_str t VALUE_TYPE_METER_NORMAL then
    n ← lift (py_len value);
    _ ← lift (py_assert (n =? 1));
    val ← lift (py_getitem value 0);
    n5 ← lift (py_len val);
    _ ← lift (py_assert (n5 =? 5));
    kind ← lift (py_getitem val 0);
    scale ← lift (py_getitem val 1);
    info ← lift (as_int kind ≫= getitem METER_TYPES);
    unit ← lift (row_unit info scale);
    _ ← lift (py_assert (negb (is_None unit)));
    val2 ← lift (py_getitem val 2);
    val3 ← lift (py_getitem val 3);
    val4 ← lift (py_getitem val 4);
    mret (new_meter_Value (VStr info.1) unit val2 val3 val4)
  else lift (Raise AssertionError).

Definition GetValue (value : pyval) : act Value :=
  t ← pop0;
  GetValue_branches t value.

(** *** List objects and references

    A caller holds the action descriptor as a reference to a list
    object.  The store maps references to the contents of the objects;
    a call of [GetValue] on a reference leaves in the store what it left
    in the list. *)
Definition loc : Type := positive.

Definition GetValue_at (h : gmap loc (list pyval)) (action : loc)
    (value : pyval) : option (result Value * gmap loc (list pyval)) :=
  a ← h !! action;
  let '(r, a') := GetValue value a in
  Some (r, <[action := a']> h).

(** ** Argument shapes for the round trip

    The shapes under which [AssembleCommand] followed by [ParseCommand]
    gives the arguments back.  The tags [B], [C], [O] and [V] have a
    field of a width of their own; [D] and [L] take the rest of the
    frame and can only come last. *)

Definition int_list (v : pyval) : option (list Z) :=
  match v with VList l => ints_of l | _ => None end.

Definition fixed_shape (c : ascii) (v : pyval) : bool :=
  if decide (c = "B"%char) then
    match v with VInt _ => true | _ => false end
  else if decide (c = "C"%char) then
    match int_list v with Some zs => Nat.eqb (length zs) 6 | None => false end
  else if decide (c = "O"%char) then
    match int_list v with Some zs => Nat.eqb (length zs) 8 | None => false end
  else if decide (c = "V"%char) then
    match v with
    | VList [VInt size; VInt value] =>
        ((size =? 1) || (size =? 2) || (size =? 4))
        && (0 <=? value) && (value <? 256 ^ size)
    | _ => false
    end
  else false.

Definition rest_shape (c : ascii) (v : pyval) : bool :=
  (bool_decide (c = "D"%char) || bool_decide (c = "L"%char))
  && match int_list v with Some _ => true | None => false end.

Fixpoint args_shape (table : schema) (args : list pyval) : bool :=
  match table, args with
  | [], [] => true
  | t :: table', v :: args' =>
      match tag_of t with
      | Ok c =>
          (fixed_shape c v && args_shape table' args')
          || (rest_shape c v
              && match table', args' with [], [] => true | _, _ => false end)
      | Raise _ => false
      end
  | _, _ => false
  end.

(** ** Auxiliary definitions for the statements *)

(** [ones n] is the integer whose [n] base-256 digits are all 1. *)
Fixpoint ones (n : nat) : Z :=
  match n with
  | O => 0
  | S n' => ones n' * 256 + 1
  end.

(** A computation on the action list that never lengthens it. *)
Definition shrinks {A} (c : act A) : Prop :=
  ∀ s r s', c s = (r, s') → (length s' ≤ length s)%nat.

(** The argument shapes of a schema all of whose tags have a field of a
    width of their own ([B], [C], [O], [V]). *)
Fixpoint fixed_args_shape (table : schema) (args : list pyval) : bool :=
  match table, args with
  | [], [] => true
  | t :: table', v :: args' =>
      match tag_of t with
      | Ok c => fixed_shape c v && fixed_args_shape table' args'
      | Raise _ => false
      end
  | _, _ => false
  end.

(** ** The order of values *)

(** [s < t] on strings: by code points, a proper prefix first. *)
Fixpoint str_lt (s t : pystr) : bool :=
  match s, t with
  | _, [] => false
  | [], _ :: _ => true
  | a :: s', b :: t' =>
      if a <? b then true else if b <? a then false else str_lt s' t'
  end.

(** [a != b] and [a < b] on the labels of a value: strings, integers and
    [None].  Comparisons with a float, a [bytes], a list or a set are
    outside the embedding. *)
Definition py_ne (a b : pyval) : result bool :=
  match a with
  | VNone =>
      match b with
      | VNone => Ok false
      | VStr _ | VInt _ => Ok true
      | _ => Raise NotModelled
      end
  | VStr s =>
      match b with
      | VStr t => Ok (negb (bool_decide (s = t)))
      | VNone | VInt _ => Ok true
      | _ => Raise NotModelled
      end
  | VInt x =>
      match b with
      | VInt y => Ok (negb (x =? y))
      | VNone | VStr _ => Ok true
      | _ => Raise NotModelled
      end
  | _ => Raise NotModelled
  end.

Definition py_lt (a b : pyval) : result bool :=
  match a with
  | VStr s =>
      match b with
      | VStr t => Ok (str_lt s t)
      | VNone | VInt _ => Raise TypeError
      | _ => Raise NotModelled
      end
  | VInt x =>
      match b with
      | VInt y => Ok (x <? y)
      | VNone | VStr _ => Raise TypeError
      | _ => Raise NotModelled
      end
  | VNone =>
      match b with
      | VNone | VStr _ | VInt _ => Raise TypeError
      | _ => Raise NotModelled
      end
  | _ => Raise NotModelled
  end.

(** [Value.__lt__] *)
Definition Value__lt__ (self other : Value) : result bool :=
  py_ne (Value_kind self) (Value_kind other) ≫= λ ne : bool,
  if ne then py_lt (Value_kind self) (Value_kind other)
  else
    py_ne (Value_unit self) (Value_unit other) ≫= λ ne : bool,
    if ne then py_lt (Value_unit self) (Value_unit other)
    else Ok false.

(** A value whose kind and unit are strings. *)
Definition str_labelled (v : Value) : bool :=
  match Value_kind v, Value_unit v with
  | VStr _, VStr _ => true
  | _, _ => false
  end.

(** ** Names of door lock events *)

Definition DOOR_LOG_EVENT_TYPE : list pystr := str <$> [
  "Lock: Access Code";
  "Unlock: Access Code";
  "Lock: Lock Button";
  "Unlock: Lock Botton";
  "Lock Attempt: Out of Schedule Access Code";
  "Unlock Attempt: Out of Schedule Access Code";
  "Illegal Access Code Entered";
  "Lock: Manual";
  "Unlock: Manual";
  "Lock: Auto";
  "Unlock: Auto";
  "Lock: Remote Out of Schedule Access Code";
  "Unlock: Remote Out of Schedule Access Code";
  "Lock: Remote";
  "Unlock: Remote";
  "Lock Attempt: Remote Out of Schedule Access Code";
  "Unlock Attempt Remote Out of Schedule Access Code";
  "Illegal Remote Access Code";
  "Lock: Manual (2)";
  "Unlock: Manual (2)";
  "Lock Secured";
  "Lock Unsecured";
  "User Code Added";
  "User Code Deleted";
  "All User Codes Deleted";
  "Master Code Changed";
  "User Code Changed";
  "Lock Reset";
  "Configuration Changed";
  "Low Battery";
  "New Battery Installed"
]%string.

(** ["%d" % t] for an integer [t]: its decimal digits, with a minus sign
    when it is negative. *)
Definition format_d (t : Z) : pystr :=
  str (NilZero.string_of_int (Z.to_int t)).

Definition EventTypeToString (t : Z) : result pystr :=
  if t <? len DOOR_LOG_EVENT_TYPE then getitem DOOR_LOG_EVENT_TYPE t
  else Ok (str "@UNKNOWN_EVENT[" ++ format_d t ++ str "]@").

(** The number of entries that the branch of [GetValue] for the tag [t]
    takes off the action list after the tag. *)
Definition pops (t : pyval) : nat :=
  if eq_str t VALUE_TYPE_SCALAR then 1
  else if eq_str t VALUE_TYPE_LIST then 1
  else if eq_str t VALUE_TYPE_CONST then 2
  else if eq_str t VALUE_TYPE_SENSOR_VALUE then 2
  else if eq_str t VALUE_TYPE_SENSOR_NORMAL then 0
  else if eq_str t VALUE_TYPE_MAP_LIST then 1
  else 0.

(** * Properties *)

(** ** Floats: conversion rounds to nearest, and overflows *)

Example float_of_int_rounds : float_of_int (2^53 + 3) = Ok 9007199254740996%float.
Proof. reflexivity. Qed.

Example float_of_int_overflow : float_of_int (2^1024) = Raise OverflowError.
Proof. vm_compute. reflexivity. Qed.

(** ** Subscripts and slices of a frame built by appending *)

Section Sequences.
Context {A : Type}.
Implicit Types (pre l post : list A) (x : A).

Lemma len_app pre l : len (pre ++ l) = len pre + len l.
Proof. unfold len. rewrite length_app. lia. Qed.

Lemma len_nonneg l : 0 ≤ len l.
Proof. unfold len. lia. Qed.

Lemma getitem_lookup l (i : nat) x :
  l !! i = Some x → getitem l (Z.of_nat i) = Ok x.
Proof.
  intros H. unfold getitem.
  destruct (Z.ltb_spec (Z.of_nat i) 0) as [?|_]; [lia|].
  destruct (Z.ltb_spec (Z.of_nat i) 0) as [?|_]; [lia|].
  by rewrite Nat2Z.id, H.
Qed.

Lemma getitem_app pre l (k : nat) x :
  l !! k = Some x → getitem (pre ++ l) (len pre + Z.of_nat k) = Ok x.
Proof.
  intros H. unfold len. rewrite <- Nat2Z.inj_add.
  apply getitem_lookup. by rewrite lookup_app_r, Nat.add_sub' by lia.
Qed.

Lemma getitem_app_0 pre l x :
  l !! 0%nat = Some x → getitem (pre ++ l) (len pre) = Ok x.
Proof.
  intros H. rewrite <- (Z.add_0_r (len pre)). by apply (getitem_app pre l 0).
Qed.

Lemma getitem_range l i x :
  0 ≤ i → getitem l i = Ok x → i < len l.
Proof.
  intros Hi. unfold getitem.
  destruct (Z.ltb_spec i 0) as [?|_]; [lia|].
  destruct (Z.ltb_spec i 0) as [?|_]; [lia|].
  destruct (l !! Z.to_nat i) eqn:E; [|done].
  intros _. apply lookup_lt_Some in E. unfold len. lia.
Qed.

Lemma getitem_out_of_range l i :
  len l ≤ i → getitem l i = Raise IndexError.
Proof.
  intros Hi. pose proof (len_nonneg l). unfold getitem.
  destruct (Z.ltb_spec i 0) as [?|_]; [lia|].
  destruct (Z.ltb_spec i 0) as [?|_]; [lia|].
  rewrite lookup_ge_None_2; [done|]. unfold len in *. lia.
Qed.

Lemma clamp_inside l i : 0 ≤ i ≤ len l → clamp l i = i.
Proof.
  intros Hi. unfold clamp.
  destruct (Z.ltb_spec i 0) as [?|_]; lia.
Qed.

Lemma slice_app pre l post :
  slice (pre ++ l ++ post) (len pre) (len pre + len l) = l.
Proof.
  unfold slice. pose proof (len_nonneg pre). pose proof (len_nonneg l).
  pose proof (len_nonneg post).
  rewrite !clamp_inside by (rewrite !len_app; lia).
  unfold len. rewrite Nat2Z.id, drop_app_length.
  replace (Z.to_nat _) with (length l) by lia.
  by rewrite take_app_length.
Qed.

Lemma slice_app_end pre l :
  slice (pre ++ l) (len pre) (len pre + (len (pre ++ l) - len pre)) = l.
Proof.
  rewrite <- (app_nil_r l) at 1 2.
  rewrite len_app, app_nil_r.
  replace (len pre + (len pre + len l - len pre)) with (len pre + len l) by lia.
  rewrite <- (app_nil_r l) at 1. apply slice_app.
Qed.
End Sequences.

(** ** Signed values *)

(** With the top bit of the first byte clear, the loop accumulates the
    big-endian magnitude of the bytes it reads. *)
Lemma signed_loop_positive pre l post value :
  signed_loop (pre ++ l ++ post) (len pre) false 0 (length l) value
  = Ok (big_endian_loop l value).
Proof.
  assert (G : ∀ (seen : list Z) value,
    signed_loop (pre ++ seen ++ l ++ post) (len pre) false (len seen)
      (length l) value = Ok (big_endian_loop l value)).
  { clear value. induction l as [|b l IH]; intros seen value; [done|].
    cbn [signed_loop length big_endian_loop].
    rewrite (getitem_app pre _ (length seen) b)
      by (by apply list_lookup_middle).
    cbn [mbind result_bind].
    replace (len seen + 1) with (len (seen ++ [b]))
      by (rewrite len_app; reflexivity).
    replace (seen ++ (b :: l) ++ post) with ((seen ++ [b]) ++ l ++ post)
      by (by rewrite <- app_assoc).
    apply IH. }
  apply (G [] value).
Qed.

Lemma big_endian_loop_shift l x :
  big_endian_loop l x = x * 256 ^ len l + big_endian_loop l 0.
Proof.
  revert x. induction l as [|b l IH]; intros x.
  - change (x = x * 1 + 0). lia.
  - cbn [big_endian_loop]. rewrite IH, (IH (Z.shiftl 0 8 + b)).
    rewrite !Z.shiftl_mul_pow2 by lia.
    replace (len (b :: l)) with (len l + 1) by (unfold len; simpl; lia).
    rewrite Z.pow_add_r by (pose proof (len_nonneg l); lia).
    lia.
Qed.

Lemma ones_pow n : 255 * ones n = 256 ^ Z.of_nat n - 1.
Proof.
  induction n as [|n IH]; [done|].
  rewrite Nat2Z.inj_succ, Z.pow_succ_r by lia. cbn [ones]. lia.
Qed.

Lemma signed_loop_negative pre l post value :
  signed_loop (pre ++ l ++ post) (len pre) true 0 (length l) value
  = Ok (value * 256 ^ len l - big_endian_loop l 0 - ones (length l)).
Proof.
  assert (G : ∀ (seen : list Z) value,
    signed_loop (pre ++ seen ++ l ++ post) (len pre) true (len seen)
      (length l) value
    = Ok (value * 256 ^ len l - big_endian_loop l 0 - ones (length l))).
  { clear value. induction l as [|b l IH]; intros seen value.
    - change (Ok value = Ok (value * 1 - 0 - 0)). f_equal. lia.
    - cbn [signed_loop length big_endian_loop].
      rewrite (getitem_app pre _ (length seen) b)
        by (by apply list_lookup_middle).
      cbn [mbind result_bind].
      replace (len seen + 1) with (len (seen ++ [b]))
        by (rewrite len_app; reflexivity).
      replace (seen ++ (b :: l) ++ post) with ((seen ++ [b]) ++ l ++ post)
        by (by rewrite <- app_assoc).
      rewrite IH. f_equal.
      rewrite (big_endian_loop_shift l (Z.shiftl 0 8 + b)).
      rewrite !Z.shiftl_mul_pow2 by lia. unfold Z.lnot.
      replace (len (b :: l)) with (len l + 1) by (unfold len; simpl; lia).
      rewrite Z.pow_add_r by (pose proof (len_nonneg l); lia).
      cbn [ones].
      pose proof (ones_pow (length l)) as Ho. unfold len. lia. }
  apply (G [] value).
Qed.

Lemma GetSignedValue_top_bit_clear pre b l post :
  Z.land b 0x80 = 0 →
  _GetSignedValue (pre ++ (b :: l) ++ post) (len pre) (len (b :: l))
  = float_of_int (_GetIntBigEndian (b :: l)).
Proof.
  intros Hb. unfold _GetSignedValue.
  rewrite (getitem_app_0 pre _ b) by done.
  cbn [mbind result_bind]. rewrite Hb. cbn [Z.eqb negb].
  unfold len at 2. rewrite Nat2Z.id, signed_loop_positive.
  reflexivity.
Qed.

(** With the top bit set, the value returned is the negation of a number
    that is not positive: the sign is lost. *)
Lemma GetSignedValue_top_bit_set pre b l post :
  Z.land b 0x80 ≠ 0 →
  _GetSignedValue (pre ++ (b :: l) ++ post) (len pre) (len (b :: l))
  = (f ← float_of_int (1 - _GetIntBigEndian (b :: l) - ones (length (b :: l)));
     Ok (- f)%float).
Proof.
  intros Hb. unfold _GetSignedValue.
  rewrite (getitem_app_0 pre _ b) by done.
  cbn [mbind result_bind].
  destruct (Z.eqb_spec (Z.land b 128) 0) as [?|_]; [done|]. cbn [negb].
  unfold len at 2. rewrite Nat2Z.id, signed_loop_negative.
  cbn [mbind result_bind]. unfold _GetIntBigEndian.
  do 2 f_equal. lia.
Qed.

(** C2 (code defect): [_GetSignedValue] on the claim's three inputs.
    The byte [0x7F] decodes to [127.0] as claimed.  With the top bit set
    the code adds [~b], which on Python's unbounded integers is
    [-b - 1], and negates the sum once more at the end: [0x80] decodes
    to [+128.0] where the claim has [-128.0], and [[0xFF, 0xFF]] to
    [65791.0] where the claim has [-1.0]. *)
Theorem GetSignedValue_examples :
  _GetSignedValue [0x80] 0 1 = Ok 128%float
  ∧ _GetSignedValue [0x7F] 0 1 = Ok 127%float
  ∧ _GetSignedValue [0xFF; 0xFF] 0 2 = Ok 65791%float.
Proof. repeat split; reflexivity. Qed.

(** ** The scaled sensor reading *)

(** C7: the header byte [0b00100010] (precision 1, scale 0, size 2)
    followed by the magnitude [0x00, 0x64] decodes to the scale code 0
    and the reading [10.0], wherever the field stands in the frame; the
    cursor moves past the three bytes. *)
Theorem ParseSensor_scaled_reading (pre post : list Z) :
  _ParseSensor (pre ++ [0x22; 0x00; 0x64] ++ post) (len pre)
  = Ok (len pre + 3, VList [VInt 0; VFloat 10]).
Proof.
  unfold _ParseSensor. pose proof (len_nonneg post) as Hp.
  rewrite !len_app. change (len [34; 0; 100]) with 3.
  destruct (Z.ltb_spec (len pre + (3 + len post)) (len pre + 2)) as [?|_];
    [lia|].
  rewrite (getitem_app_0 pre _ 0x22) by done. cbn [mbind result_bind].
  change (Z.land 34 7) with 2.
  destruct (Z.ltb_spec (len pre + (3 + len post)) (len pre + 1 + 2)) as [?|_];
    [lia|].
  replace (pre ++ [34; 0; 100] ++ post)
    with ((pre ++ [34]) ++ [0; 100] ++ post) by (by rewrite <- app_assoc).
  replace (len pre + 1) with (len (pre ++ [34]))
    by (rewrite len_app; reflexivity).
  pose proof (GetSignedValue_top_bit_clear (pre ++ [34]) 0 [100] post) as H.
  change (len [0; 100]) with 2 in H. rewrite H by done.
  rewrite len_app. change (len [34]) with 1.
  replace (len pre + 1 + 2) with (len pre + 3) by lia.
  reflexivity.
Qed.

(** ** Truncated frames *)

(** The parsers [B], [W], [C], [O] and [X] check the bytes that remain
    and answer [None]. *)
Lemma ParseByte_truncated m index :
  len m ≤ index → _ParseByte m index = Ok (index, VNone).
Proof.
  intros H. unfold _ParseByte.
  by destruct (Z.leb_spec (len m) index); [|lia].
Qed.

Lemma ParseWord_truncated m index :
  len m < index + 2 → _ParseWord m index = Ok (index, VNone).
Proof.
  intros H. unfold _ParseWord.
  by destruct (Z.leb_spec (len m) (index + 1)); [|lia].
Qed.

Lemma ParseDate_truncated m index :
  len m < index + 7 → _ParseDate m index = Ok (len m, VNone).
Proof.
  intros H. unfold _ParseDate.
  by destruct (Z.ltb_spec (len m) (index + 7)); [|lia].
Qed.

Lemma ParseNonce_truncated m index :
  len m < index + 8 → _ParseNonce m index = Ok (index, VNone).
Proof.
  intros H. unfold _ParseNonce.
  by destruct (Z.ltb_spec (len m) (index + 8)); [|lia].
Qed.

Lemma ParseSensor_truncated m index :
  len m < index + 1
  ∨ (∃ c, getitem m index = Ok c ∧ len m < index + 1 + Z.land c 7) →
  _ParseSensor m index = Ok (index, VNone).
Proof.
  intros H. unfold _ParseSensor.
  destruct (Z.ltb_spec (len m) (index + 2)) as [|Hlen]; [done|].
  destruct H as [H|(c & Hc & H)]; [lia|].
  rewrite Hc. cbn [mbind result_bind].
  by destruct (Z.ltb_spec (len m) (index + 1 + Z.land c 7)); [|lia].
Qed.

(** The meter parser reads its header byte unchecked. *)
Lemma ParseMeter_no_header m index :
  len m ≤ index → _ParseMeter m index = Raise IndexError.
Proof.
  intros H. unfold _ParseMeter. by rewrite getitem_out_of_range.
Qed.

(** C3 (code defect): the parsers [M] and [T] of [_PARSE_ACTIONS] on
    truncated input.  [_ParseMeter] with no byte left, and with a
    reading header that announces two bytes of which one is there, reads
    outside the frame ([IndexError]) and answers no [None].
    [_ParseBitVector] with a length byte of 3 and one byte left reports
    success, with the cursor beyond the end of the frame.  The sibling
    parsers [B], [W], [C], [O] and [X] do answer [None]. *)
Theorem truncated_meter_and_bit_vector :
  _PARSE_ACTIONS "M" = Some _ParseMeter
  ∧ _ParseMeter [0x32; 0x02] 2 = Raise IndexError
  ∧ _ParseMeter [0x32; 0x02; 0x01; 0x22; 0x00] 2 = Raise IndexError
  ∧ _PARSE_ACTIONS "T" = Some _ParseBitVector
  ∧ _ParseBitVector [0x25; 0x03; 3; 5] 2 = Ok (6, VSet {[0; 2]}).
Proof. repeat split; vm_compute; reflexivity. Qed.

(** ** The shape of a decoded meter field *)

Lemma ParseMeter_header_only m index b :
  getitem m index = Ok b → len m ≤ index + 1 →
  _ParseMeter m index
  = Ok (index + 1, VList [VInt (Z.land b 0x1f); VNone; VNone; VNone]).
Proof.
  intros Hb Hlen. unfold _ParseMeter, _ExtractValues.
  rewrite Hb. cbn [mbind result_bind].
  by destruct (Z.leb_spec (len m) (index + 1)); [|lia].
Qed.

Lemma ParseMeter_five m index i v :
  index + 1 < len m → _ParseMeter m index = Ok (i, v) →
  ∃ l, v = VList l ∧ length l = 5%nat.
Proof.
  intros Hlen. unfold _ParseMeter, _ExtractValues.
  destruct (getitem m index) as [b|]; [|done]. cbn [mbind result_bind].
  destruct (Z.leb_spec (len m) (index + 1)); [lia|].
  destruct (_GetReading _ _ _) as [[i1 [u v1]]|]; [|done].
  cbn [mbind result_bind].
  destruct (i1 + 1 <? len m).
  - destruct (_GetTimeDelta m i1) as [[i2 d]|]; [|done].
    cbn [mbind result_bind].
    destruct (i2 <? len m).
    + destruct (_GetReading _ _ _) as [[i3 [u3 v3]]|]; [|done].
      cbn [mbind result_bind]. intros [= <- <-]. eauto.
    + cbn [mbind result_bind]. intros [= <- <-]. eauto.
  - cbn [mbind result_bind].
    destruct (i1 <? len m).
    + destruct (_GetReading _ _ _) as [[i3 [u3 v3]]|]; [|done].
      cbn [mbind result_bind]. intros [= <- <-]. eauto.
    + cbn [mbind result_bind]. intros [= <- <-]. eauto.
Qed.

(** C9 (code defect): a frame that ends with the meter header byte.
    [_ExtractValues] returns early with three placeholders where its
    other exit has four entries, so the decoded meter field has 4
    elements, and the meter-normal branch of [GetValue], which asserts
    5, rejects the field list. *)
Theorem ParseMeter_header_at_end :
  _ParseMeter [0x32; 0x02; 0x01] 2
  = Ok (3, VList [VInt 1; VNone; VNone; VNone])
  ∧ GetValue (VList [VList [VInt 1; VNone; VNone; VNone]])
      [VStr VALUE_TYPE_METER_NORMAL]
    = (Raise AssertionError, []).
Proof. split; vm_compute; reflexivity. Qed.

(** ** Length-prefixed strings *)

Lemma ParseStringWithLength_never_returns m index r :
  _ParseStringWithLength m index ≠ Ok r.
Proof.
  unfold _ParseStringWithLength. by destruct (getitem m index).
Qed.

Lemma ParseStringWithLengthAndEncoding_cursor m index i v :
  _ParseStringWithLengthAndEncoding m index = Ok (i, v) →
  ∃ b, getitem m index = Ok b ∧ i = 1 + Z.land b 0x1f.
Proof.
  unfold _ParseStringWithLengthAndEncoding.
  destruct (getitem m index) as [b|]; [|done]. cbn [mbind result_bind].
  destruct (py_bytes _); [|done]. cbn [mbind result_bind].
  intros [= <- <-]. eauto.
Qed.

(** C10 (code defect): the two length-prefixed string parsers on the
    prefix byte 2 followed by the bytes [65, 66], at cursor 2.  The
    claim has both return the two bytes and the cursor 5.  [A]
    subscripts the frame by the pair [(index + 1, size)] and raises
    [TypeError]; [F] returns the cursor [1 + size = 3] and the slice
    [m[index + 1:index + size]], one byte. *)
Theorem string_with_length_examples :
  _PARSE_ACTIONS "A" = Some _ParseStringWithLength
  ∧ _ParseStringWithLength [0x77; 0x03; 2; 65; 66] 2 = Raise TypeError
  ∧ _PARSE_ACTIONS "F" = Some _ParseStringWithLengthAndEncoding
  ∧ _ParseStringWithLengthAndEncoding [0x77; 0x03; 2; 65; 66] 2
    = Ok (3, VList [VInt 0; VBytes [65]]).
Proof. repeat split; vm_compute; reflexivity. Qed.

(** ** Unknown commands *)

Section UnknownCommand.
Variable SUBCMD_TO_PARSE_TABLE : Z → option schema.

(** C5: a frame of at least two bytes whose header key has no schema
    decodes to the empty list, whatever its body: the body is not
    read. *)
Theorem ParseCommand_unknown (class command : Z) (body : list Z) :
  SUBCMD_TO_PARSE_TABLE (class * 256 + command) = None →
  ParseCommand SUBCMD_TO_PARSE_TABLE (class :: command :: body)
  = Ok (VList [])
  ∧ ∀ body',
      ParseCommand SUBCMD_TO_PARSE_TABLE (class :: command :: body')
      = ParseCommand SUBCMD_TO_PARSE_TABLE (class :: command :: body).
Proof.
  intros Hkey.
  assert (G : ∀ b, ParseCommand SUBCMD_TO_PARSE_TABLE (class :: command :: b)
                   = Ok (VList [])).
  { intros b. unfold ParseCommand, _GetParameterDescriptors.
    destruct (Z.ltb_spec (len (class :: command :: b)) 2) as [Hl|_].
    - unfold len in Hl. simpl in Hl. lia.
    - assert (getitem (class :: command :: b) 0 = Ok class) as ->
        by reflexivity.
      assert (getitem (class :: command :: b) 1 = Ok command) as ->
        by reflexivity.
      cbn [mbind result_bind]. by rewrite Hkey. }
  split; [apply G|]. intros body'. by rewrite !G.
Qed.
End UnknownCommand.

(** An instance: the empty table and the frame [[0x20, 0x01, 0xFF]]. *)
Lemma ParseCommand_unknown_witness :
  ParseCommand (λ _, None) [0x20; 0x01; 0xFF] = Ok (VList [])
  ∧ ∀ body', ParseCommand (λ _, None) (0x20 :: 0x01 :: body')
             = ParseCommand (λ _, None) [0x20; 0x01; 0xFF].
Proof. apply (ParseCommand_unknown (λ _, None) 0x20 0x01 [0xFF]). reflexivity. Defined.

(** ** Resolution of sensor units *)

(** C6: the sensor-normal field list [[1, [scale, reading]]].  With
    scale 0 the value has kind [Temperature] and unit [C]; with scale 2,
    an empty slot of the temperature row, the assertion on the unit
    fails and no value is produced. *)
Theorem GetValue_sensor_normal_temperature (reading : pyval) (rest : list pyval) :
  GetValue (VList [VInt 1; VList [VInt 0; reading]])
    (VStr VALUE_TYPE_SENSOR_NORMAL :: rest)
  = (Ok (new_Value (VStr (str "Temperature")) (VStr (str "C")) reading), rest)
  ∧ GetValue (VList [VInt 1; VList [VInt 2; reading]])
      (VStr VALUE_TYPE_SENSOR_NORMAL :: rest)
    = (Raise AssertionError, rest).
Proof. split; reflexivity. Qed.

(** ** The encoding selector of a name *)

(** The claim C8 as stated, with the selector read from three bits, fails
    on the first byte 4: its three-bit selector is 4, the code masks
    with 3, reads the selector 0 and returns the ASCII string. *)
Lemma ParseName_selector_not_three_bits :
  ¬ (∀ (m : list Z) (index b0 : Z),
       getitem m index = Ok b0 →
       ¬ (0 ≤ Z.land b0 7 ≤ 2) →
       ∀ i s, _ParseName m index ≠ Ok (i, VStr s)).
Proof.
  intros H.
  apply (H [4; 65] 0 4 eq_refl) with (i := 2) (s := str "A"); [|reflexivity].
  change (Z.land 4 7) with 4. lia.
Qed.

(** C8 (amended): [_ParseName] reads a two-bit selector, [m[index] & 3],
    and decodes the bytes after the first one, to the end of the frame,
    as ASCII (0), Latin-1 (1) or UTF-16 big-endian (2); with the
    selector 3 the subscript of [_ENCODING_TO_DECODER] raises
    [IndexError] and no string is returned.  The selector takes no other
    value. *)
Theorem ParseName_selector (m : list Z) (index b0 : Z) (b : list Z) :
  0 ≤ index →
  getitem m index = Ok b0 →
  py_bytes (slice_from m (index + 1)) = Ok b →
  (Z.land b0 3 = 0 →
     _ParseName m index = (s ← decode_ascii b; Ok (len m, VStr s)))
  ∧ (Z.land b0 3 = 1 →
     _ParseName m index = (s ← decode_latin1 b; Ok (len m, VStr s)))
  ∧ (Z.land b0 3 = 2 →
     _ParseName m index = (s ← decode_utf_16_be b; Ok (len m, VStr s)))
  ∧ (Z.land b0 3 = 3 → _ParseName m index = Raise IndexError)
  ∧ 0 ≤ Z.land b0 3 ≤ 3.
Proof.
  intros Hi Hb0 Hb.
  assert (Hlt : (index <? len m) = true).
  { apply Z.ltb_lt. by eapply getitem_range. }
  assert (E : ∀ sel, Z.land b0 3 = sel →
    _ParseName m index
    = (c ← getitem _ENCODING_TO_DECODER sel;
       s ← bytes_decode b c; Ok (len m, VStr s))).
  { intros sel <-. unfold _ParseName. rewrite Hlt, Hb0, Hb. reflexivity. }
  assert (R : Z.land b0 3 = b0 `mod` 4) by apply (Z.land_ones b0 2 ltac:(lia)).
  pose proof (Z.mod_pos_bound b0 4 ltac:(lia)).
  repeat split; try (intros Hs; by rewrite (E _ Hs)); lia.
Qed.

(** Instances: the selector 3, and a Latin-1 name. *)
Lemma ParseName_selector_witness :
  _ParseName [3; 65] 0 = Raise IndexError
  ∧ _ParseName [1; 233] 0 = Ok (2, VStr [233]).
Proof.
  split.
  - destruct (ParseName_selector [3; 65] 0 3 [65]) as (_ & _ & _ & H & _);
      [lia | reflexivity | reflexivity |].
    apply H. reflexivity.
  - destruct (ParseName_selector [1; 233] 0 1 [233]) as (_ & H & _);
      [lia | reflexivity | reflexivity |].
    apply H. reflexivity.
Defined.

(** ** Resolution and the action list *)

Lemma shrinks_ret {A} (a : A) : shrinks (mret a).
Proof. intros s r s' [= _ <-]. done. Qed.

Lemma shrinks_lift {A} (r : result A) : shrinks (lift r).
Proof. intros s r' s' [= _ <-]. done. Qed.

Lemma shrinks_action_item i : shrinks (action_item i).
Proof. intros s r' s' [= _ <-]. done. Qed.

Lemma shrinks_pop0 : shrinks pop0.
Proof. intros [|x s] r s' [= _ <-]; simpl; lia. Qed.

Lemma shrinks_bind {A B} (c : act A) (f : A → act B) :
  shrinks c → (∀ a, shrinks (f a)) → shrinks (c ≫= f).
Proof.
  intros Hc Hf s r s'. unfold mbind, act_bind.
  destruct (c s) as [[a|e] s1] eqn:E.
  - intros H. apply Hf in H. apply Hc in E. lia.
  - intros [= _ <-]. by apply Hc in E.
Qed.

Ltac shrinks_step :=
  first
    [ apply shrinks_ret | apply shrinks_lift | apply shrinks_action_item
    | apply shrinks_pop0
    | apply shrinks_bind; [|intros ?]
    | match goal with |- shrinks (if ?b then _ else _) => destruct b end
    | match goal with |- shrinks (let '(_, _) := ?p in _) => destruct p end ].

Lemma GetValue_branches_shrinks t value : shrinks (GetValue_branches t value).
Proof. unfold GetValue_branches. repeat shrinks_step. Qed.

(** A call of [GetValue] on a non-empty list removes its first entry at
    least. *)
Lemma GetValue_consumes value action r action' :
  GetValue value action = (r, action') →
  action ≠ [] → (length action' < length action)%nat.
Proof.
  destruct action as [|t s]; [done|]. intros H _.
  unfold GetValue in H. cbn [mbind act_bind pop0] in H.
  apply GetValue_branches_shrinks in H. simpl. lia.
Qed.

(** The claim C4 as stated fails on the scalar descriptor
    [["ItemScalar", "Basic"]] and the field list [[5]]: the first call
    pops both entries and returns a value, the second call on the same
    list finds it empty and raises [IndexError]. *)
Lemma GetValue_twice_same_list :
  ¬ (∀ (h : gmap loc (list pyval)) (action : loc) (value : pyval) v h1,
       GetValue_at h action value = Some (Ok v, h1) →
       ∃ h2, GetValue_at h1 action value = Some (Ok v, h2)).
Proof.
  intros H.
  set (h := {[ 1%positive := [VStr VALUE_TYPE_SCALAR; VStr (str "Basic")] ]}
            : gmap loc (list pyval)).
  assert (E1 : GetValue_at h 1%positive (VList [VInt 5])
               = Some (Ok (new_Value (VStr (str "Basic")) (VStr UNIT_NONE)
                             (VInt 5)),
                       <[1%positive := []]> h))
    by (vm_compute; reflexivity).
  destruct (H _ _ _ _ _ E1) as [h2 E2].
  vm_compute in E2. discriminate.
Qed.

(** C4 (amended): [GetValue] has no state but the action list it is
    given, and it consumes that list.  Two calls that are each given
    their own copy of a descriptor, and the same field list, have equal
    results; the copy a call was given has lost its first entry at
    least, so a later call on that same list does not see the
    descriptor again. *)
Theorem GetValue_separate_copies (h : gmap loc (list pyval)) (a1 a2 : loc)
    (action : list pyval) (value : pyval) :
  a1 ≠ a2 →
  h !! a1 = Some action →
  h !! a2 = Some action →
  ∃ r action' h1 h2,
    GetValue_at h a1 value = Some (r, h1)
    ∧ GetValue_at h1 a2 value = Some (r, h2)
    ∧ h1 !! a1 = Some action'
    ∧ h2 !! a2 = Some action'
    ∧ (action ≠ [] → (length action' < length action)%nat).
Proof.
  intros Hne H1 H2.
  destruct (GetValue value action) as [r action'] eqn:E.
  exists r, action', (<[a1 := action']> h), (<[a2 := action']> (<[a1 := action']> h)).
  unfold GetValue_at.
  rewrite H1. cbn [mbind option_bind]. rewrite E.
  rewrite lookup_insert_ne, H2 by done. cbn [mbind option_bind]. rewrite E.
  rewrite !lookup_insert_eq.
  repeat split; try done. intros Hn. by eapply GetValue_consumes.
Qed.

(** An instance: two copies of the scalar descriptor, at the references
    1 and 2. *)
Lemma GetValue_separate_copies_witness :
  ∃ r action' h1 h2,
    GetValue_at {[ 1%positive := [VStr VALUE_TYPE_SCALAR; VStr (str "Basic")];
                   2%positive := [VStr VALUE_TYPE_SCALAR; VStr (str "Basic")] ]}
      1%positive (VList [VInt 5]) = Some (r, h1)
    ∧ GetValue_at h1 2%positive (VList [VInt 5]) = Some (r, h2)
    ∧ h1 !! 1%positive = Some action'
    ∧ h2 !! 2%positive = Some action'
    ∧ ([VStr VALUE_TYPE_SCALAR; VStr (str "Basic")] ≠ [] →
       (length action' < 2)%nat).
Proof.
  apply (GetValue_separate_copies _ 1%positive 2%positive
           [VStr VALUE_TYPE_SCALAR; VStr (str "Basic")] (VList [VInt 5]));
    [done | reflexivity | reflexivity].
Defined.

(** ** Round trip of the frame codec *)

Lemma ints_of_fmap l zs : ints_of l = Some zs → l = VInt <$> zs.
Proof.
  revert zs. induction l as [|v l IH]; intros zs.
  - by intros [= <-].
  - destruct v; try done. cbn [ints_of].
    destruct (ints_of l) as [zs'|]; [|done].
    intros [= <-]. cbn. f_equal. by apply IH.
Qed.

Lemma int_list_fmap v zs : int_list v = Some zs → v = VList (VInt <$> zs).
Proof.
  destruct v; try done. cbn [int_list]. by intros ->%ints_of_fmap.
Qed.

Lemma ints_of_fmap_VInt zs : ints_of (VInt <$> zs) = Some zs.
Proof.
  induction zs as [|z zs IH]; [done|]. cbn [fmap list_fmap ints_of].
  fold (@fmap list _ Z pyval VInt zs). by rewrite IH.
Qed.

(** The bound on the rounds of the loop of [_MakeValue] is not reached
    before [shift] is negative: more rounds change nothing. *)
Lemma make_value_loop_fuel value (n k : nat) :
  ∀ shift data, shift < 8 * Z.of_nat n →
  make_value_loop value shift (n + k) data = make_value_loop value shift n data.
Proof.
  induction n as [|n IH]; intros shift data Hs.
  - destruct k as [|k]; [done|]. cbn [Nat.add make_value_loop].
    by destruct (Z.leb_spec 0 shift); [lia|].
  - cbn [Nat.add make_value_loop].
    destruct (0 <=? shift); [|done]. apply IH. lia.
Qed.

(** Big-endian bytes of a value of 1, 2 or 4 bytes, as [_MakeValue] emits
    them and [_ParseValue] reads them back. *)
Lemma land_255 x : Z.land 255 x = x `mod` 256.
Proof. rewrite Z.land_comm. apply (Z.land_ones x 8). lia. Qed.

Lemma MakeValue_big_endian size value :
  size = 1 ∨ size = 2 ∨ size = 4 →
  0 ≤ value < 256 ^ size →
  ∃ bytes,
    _MakeValue size value = Ok (size :: bytes)
    ∧ len bytes = size
    ∧ _GetIntBigEndian bytes = value.
Proof.
  intros [->|[->| ->]] Hv.
  - exists [Z.land 255 (Z.shiftr value 0)]. repeat split.
    unfold _GetIntBigEndian, big_endian_loop.
    rewrite land_255, Z.shiftr_0_r, Z.shiftl_0_l.
    rewrite Z.mod_small; lia.
  - exists [Z.land 255 (Z.shiftr value 8); Z.land 255 (Z.shiftr value 0)].
    repeat split.
    unfold _GetIntBigEndian, big_endian_loop.
    rewrite !land_255, Z.shiftr_0_r, Z.shiftl_0_l.
    rewrite !Z.shiftr_div_pow2, !Z.shiftl_mul_pow2 by lia.
    change (2 ^ 8) with 256. change (256 ^ 2) with 65536 in Hv.
    Z.div_mod_to_equations. lia.
  - exists [Z.land 255 (Z.shiftr value 24); Z.land 255 (Z.shiftr value 16);
            Z.land 255 (Z.shiftr value 8); Z.land 255 (Z.shiftr value 0)].
    repeat split.
    unfold _GetIntBigEndian, big_endian_loop.
    rewrite !land_255, Z.shiftr_0_r, Z.shiftl_0_l.
    rewrite !Z.shiftr_div_pow2, !Z.shiftl_mul_pow2 by lia.
    change (2 ^ 8) with 256. change (2 ^ 16) with 65536.
    change (2 ^ 24) with 16777216. change (256 ^ 4) with 4294967296 in Hv.
    Z.div_mod_to_equations. lia.
Qed.

(** One field with a width of its own: what the encoder appends, the
    parser of the same tag reads back, wherever it stands. *)
Lemma field_roundtrip t c v :
  tag_of t = Ok c → fixed_shape c v = true →
  ∃ enc p,
    _PARSE_ACTIONS c = Some p
    ∧ is_None v = false
    ∧ (∀ data, assemble_field t v data = Ok (data ++ enc))
    ∧ (∀ pre post, p (pre ++ enc ++ post) (len pre) = Ok (len pre + len enc, v)).
Proof.
  intros Ht. unfold fixed_shape, assemble_field. rewrite Ht.
  cbn [mbind result_bind].
  destruct (decide (c = "B"%char)) as [->|_].
  { destruct v as [|z| | | | |]; try done. intros _.
    exists [z], _ParseByte. repeat split.
    intros pre post. unfold _ParseByte.
    pose proof (len_nonneg post).
    rewrite !len_app. change (len [z]) with 1.
    destruct (Z.leb_spec (len pre + (1 + len post)) (len pre)); [lia|].
    by rewrite (getitem_app_0 pre _ z). }
  destruct (decide (c = "C"%char)) as [->|_].
  { destruct (int_list v) as [zs|] eqn:E; [|done].
    apply int_list_fmap in E as ->.
    destruct zs as [|y [|mo [|d [|h [|mi [|s [|? ?]]]]]]]; try done. intros _.
    exists [y `div` 256; y `mod` 256; mo; d; h; mi; s], _ParseDate.
    repeat split.
    intros pre post. unfold _ParseDate.
    pose proof (len_nonneg post).
    rewrite !len_app.
    change (len [y `div` 256; y `mod` 256; mo; d; h; mi; s]) with 7.
    destruct (Z.ltb_spec (len pre + (7 + len post)) (len pre + 7)); [lia|].
    rewrite (getitem_app_0 pre _ (y `div` 256)) by done.
    rewrite (getitem_app pre _ 1 (y `mod` 256)) by done.
    rewrite (getitem_app pre _ 2 mo) by done.
    rewrite (getitem_app pre _ 3 d) by done.
    rewrite (getitem_app pre _ 4 h) by done.
    rewrite (getitem_app pre _ 5 mi) by done.
    rewrite (getitem_app pre _ 6 s) by done.
    cbn [mbind result_bind].
    replace (y `div` 256 * 256 + y `mod` 256) with y
      by (pose proof (Z.div_mod y 256); lia).
    reflexivity. }
  destruct (decide (c = "O"%char)) as [->|_].
  { destruct (int_list v) as [zs|] eqn:E; [|done].
    apply int_list_fmap in E as ->. intros Hn%Nat.eqb_eq.
    exists zs, _ParseNonce. repeat split.
    - intros data. cbn [py_len mbind result_bind extend_with].
      by rewrite ints_of_fmap_VInt.
    - intros pre post. unfold _ParseNonce.
      pose proof (len_nonneg post).
      assert (len zs = 8) as Hz by (unfold len; lia).
      rewrite !len_app, Hz.
      destruct (Z.ltb_spec (len pre + (8 + len post)) (len pre + 8)); [lia|].
      by rewrite <- Hz, slice_app. }
  destruct (decide (c = "V"%char)) as [->|_]; [|done].
  destruct v as [| | | | |l|]; try done.
  destruct l as [|[|size| | | | |] [|[|value| | | | |] [|? ?]]]; try done.
  intros [[Hs H0%Z.leb_le]%andb_prop Hv%Z.ltb_lt]%andb_prop.
  assert (size = 1 ∨ size = 2 ∨ size = 4) as Hsize.
  { apply orb_prop in Hs as [Hs|Hs]; [apply orb_prop in Hs as [Hs|Hs]|];
      apply Z.eqb_eq in Hs; auto. }
  destruct (MakeValue_big_endian size value Hsize (conj H0 Hv))
    as (bytes & HM & Hl & HB).
  exists (size :: bytes), _ParseValue. repeat split.
  - intros data.
    assert (py_getitem (VList [VInt size; VInt value]) 0 = Ok (VInt size))
      as -> by reflexivity.
    assert (py_getitem (VList [VInt size; VInt value]) 1 = Ok (VInt value))
      as -> by reflexivity.
    cbn [mbind result_bind as_int]. by rewrite HM.
  - intros pre post. unfold _ParseValue.
    rewrite (getitem_app_0 pre _ size) by done. cbn [mbind result_bind].
    assert (Z.land size 7 = size) as -> by (by destruct Hsize as [->|[->| ->]]).
    replace (pre ++ (size :: bytes) ++ post)
      with ((pre ++ [size]) ++ bytes ++ post) by (by rewrite <- app_assoc).
    replace (len pre + 1) with (len (pre ++ [size]))
      by (rewrite len_app; reflexivity).
    pose proof (slice_app (pre ++ [size]) bytes post) as HS.
    rewrite Hl in HS. rewrite HS, HB.
    do 2 f_equal. unfold len. rewrite length_app. simpl length.
    unfold len in Hl. lia.
Qed.

(** A last field that takes the rest of the frame. *)
Lemma rest_field_roundtrip t c v :
  tag_of t = Ok c → rest_shape c v = true →
  ∃ enc p,
    _PARSE_ACTIONS c = Some p
    ∧ is_None v = false
    ∧ (∀ data, assemble_field t v data = Ok (data ++ enc))
    ∧ (∀ pre, p (pre ++ enc) (len pre) = Ok (len (pre ++ enc), v)).
Proof.
  intros Ht. unfold rest_shape, assemble_field. rewrite Ht.
  cbn [mbind result_bind].
  intros [Hc Hv]%andb_prop.
  destruct (int_list v) as [zs|] eqn:E; [|done].
  apply int_list_fmap in E as ->.
  assert (∀ pre, _ParseDataRest (pre ++ zs) (len pre)
                 = Ok (len (pre ++ zs), VList (VInt <$> zs))) as HD.
  { intros pre. unfold _ParseDataRest. rewrite slice_app_end.
    do 2 f_equal. lia. }
  apply orb_prop in Hc as [Hc|Hc]; apply bool_decide_eq_true in Hc; subst c.
  - exists zs, _ParseDataRest. repeat split; [|done].
    intros data. cbn. by rewrite ints_of_fmap_VInt.
  - exists zs, _ParseListRest. repeat split; [|done].
    intros data. cbn. by rewrite ints_of_fmap_VInt.
Qed.

(** The two loops, run over a whole schema: the encoder appends [enc] to
    the frame under construction, and the decoder, started where the
    encoder started, reads the arguments back.  [pfx] is the part of
    [raw_cmd] before the arguments still to encode. *)
Lemma fields_roundtrip table :
  ∀ args, args_shape table args = true →
  ∃ enc,
    (∀ pfx data,
       assemble_fields table (pfx ++ args) (len pfx - 2) data = Ok (data ++ enc))
    ∧ (∀ data out,
         parse_fields table (data ++ enc) (len data) out
         = Ok (VList (out ++ args))).
Proof.
  induction table as [|t table IH]; intros [|v args]; try done.
  { intros _. exists []. split; intros; cbn; by rewrite !app_nil_r. }
  cbn [args_shape]. destruct (tag_of t) as [c|] eqn:Ht; [|done].
  intros [[Hf Hargs]%andb_prop|[Hr Hlast]%andb_prop]%orb_prop.
  - destruct (field_roundtrip t c v Ht Hf) as (enc1 & p & Hp & Hv & Ha & Hd).
    destruct (IH args Hargs) as (enc & HA & HD).
    exists (enc1 ++ enc). split.
    + intros pfx data. cbn [assemble_fields].
      replace (len pfx - 2 + 2) with (len pfx) by lia.
      rewrite (getitem_app_0 pfx _ v) by done. cbn [mbind result_bind].
      rewrite Ha. cbn [mbind result_bind].
      replace (len pfx - 2 + 1) with (len (pfx ++ [v]) - 2)
        by (rewrite len_app; change (len [v]) with 1; lia).
      replace (pfx ++ v :: args) with ((pfx ++ [v]) ++ args)
        by (by rewrite <- app_assoc).
      by rewrite HA, app_assoc.
    + intros data out. cbn [parse_fields]. rewrite Ht.
      cbn [mbind result_bind]. rewrite Hp, Hd. cbn [mbind result_bind].
      rewrite Hv, app_assoc, <- len_app, HD.
      by rewrite <- app_assoc.
  - destruct table, args; try done.
    destruct (rest_field_roundtrip t c v Ht Hr) as (enc & p & Hp & Hv & Ha & Hd).
    exists enc. split.
    + intros pfx data. cbn [assemble_fields].
      replace (len pfx - 2 + 2) with (len pfx) by lia.
      rewrite (getitem_app_0 pfx _ v) by done. cbn [mbind result_bind].
      by rewrite Ha.
    + intros data out. cbn [parse_fields]. rewrite Ht.
      cbn [mbind result_bind]. rewrite Hp, Hd. cbn [mbind result_bind].
      by rewrite Hv.
Qed.

Section RoundTrip.
Variable SUBCMD_TO_PARSE_TABLE : Z → option schema.

(** C1 (amended): for every key registered with a schema made of the
    tags [B], [C], [O] and [V], with at most one [D] or [L] as its last
    entry, and for every argument list of the shapes of that schema
    (an integer for [B]; six integers for [C]; eight for [O];
    [[size, value]] with [size] in 1, 2, 4 and [0 <= value < 256^size]
    for [V]; a list of integers for [D] and [L]), the encoder returns a
    frame and the decoder returns the arguments from it. *)
Theorem AssembleCommand_ParseCommand (class command : Z) (table : schema)
    (args : list pyval) :
  SUBCMD_TO_PARSE_TABLE (class * 256 + command) = Some table →
  args_shape table args = true →
  ∃ frame,
    AssembleCommand SUBCMD_TO_PARSE_TABLE (VInt class :: VInt command :: args)
    = Ok frame
    ∧ ParseCommand SUBCMD_TO_PARSE_TABLE frame = Ok (VList args).
Proof.
  intros Hkey Hargs.
  destruct (fields_roundtrip table args Hargs) as (enc & HA & HD).
  exists ([class; command] ++ enc). split.
  - unfold AssembleCommand.
    assert (getitem (VInt class :: VInt command :: args) 0 = Ok (VInt class))
      as -> by reflexivity.
    assert (getitem (VInt class :: VInt command :: args) 1 = Ok (VInt command))
      as -> by reflexivity.
    cbn [mbind result_bind as_int]. rewrite Hkey.
    apply (HA [VInt class; VInt command] [class; command]).
  - unfold ParseCommand, _GetParameterDescriptors.
    pose proof (len_nonneg enc).
    destruct (Z.ltb_spec (len ([class; command] ++ enc)) 2) as [Hl|_].
    { rewrite len_app in Hl. change (len [class; command]) with 2 in Hl. lia. }
    assert (getitem ([class; command] ++ enc) 0 = Ok class) as ->
      by reflexivity.
    assert (getitem ([class; command] ++ enc) 1 = Ok command) as ->
      by reflexivity.
    cbn [mbind result_bind]. rewrite Hkey.
    apply (HD [class; command] []).
Qed.
End RoundTrip.

(** An instance: a schema with all the tags of the round trip. *)
Lemma AssembleCommand_ParseCommand_witness :
  let table : Z → option schema :=
    λ k, if k =? 0x8601
         then Some ["B{group}"; "V{value}"; "C{date}"; "O{nonce}"; "L{nodes}"]%string
         else None in
  let args :=
    [VInt 7; VList [VInt 2; VInt 513];
     VList [VInt 2016; VInt 12; VInt 31; VInt 23; VInt 59; VInt 58];
     VList [VInt 1; VInt 2; VInt 3; VInt 4; VInt 5; VInt 6; VInt 7; VInt 8];
     VList [VInt 9; VInt 10]] in
  ∃ frame,
    AssembleCommand table (VInt 0x86 :: VInt 0x01 :: args) = Ok frame
    ∧ ParseCommand table frame = Ok (VList args).
Proof.
  intros table args.
  apply (AssembleCommand_ParseCommand table 0x86 0x01
           ["B{group}"; "V{value}"; "C{date}"; "O{nonce}"; "L{nodes}"]%string
           args); reflexivity.
Defined.

(** The claim C1 as stated fails for a schema with the key tag [K]: the
    encoder takes a 16-byte key, and [_PARSE_ACTIONS] has no parser for
    [K], so decoding the frame raises [KeyError]. *)
Lemma roundtrip_not_for_every_schema :
  ¬ (∀ (SUBCMD_TO_PARSE_TABLE : Z → option schema) (class command : Z)
       (table : schema) (args : list pyval) (frame : list Z),
       SUBCMD_TO_PARSE_TABLE (class * 256 + command) = Some table →
       length args = length table →
       AssembleCommand SUBCMD_TO_PARSE_TABLE
         (VInt class :: VInt command :: args) = Ok frame →
       ParseCommand SUBCMD_TO_PARSE_TABLE frame = Ok (VList args)).
Proof.
  intros H.
  specialize (H (λ k, if k =? 0x9806 then Some ["K{key}"%string] else None)
                0x98 0x06 ["K{key}"%string]
                [VList (VInt <$> [1; 2; 3; 4; 5; 6; 7; 8;
                                  9; 10; 11; 12; 13; 14; 15; 16])]
                [0x98; 0x06; 1; 2; 3; 4; 5; 6; 7; 8;
                 9; 10; 11; 12; 13; 14; 15; 16]
                eq_refl eq_refl eq_refl).
  vm_compute in H. discriminate.
Qed.

(** The tag [N] has a parser, but its encoder emits the constant byte 1
    and drops the name: the frame decodes to the empty string. *)
Lemma AssembleCommand_drops_name :
  let table : Z → option schema :=
    λ k, if k =? 0x7701 then Some ["N{name}"%string] else None in
  AssembleCommand table [VInt 0x77; VInt 0x01; VStr (str "a")]
  = Ok [0x77; 0x01; 1]
  ∧ ParseCommand table [0x77; 0x01; 1] = Ok (VList [VStr (str "")]).
Proof. split; reflexivity. Qed.

(** * Further properties of the codec and the resolver *)

(** ** Bit vectors *)

Lemma land_bit b j :
  0 ≤ j → (Z.land b (Z.shiftl 1 j) =? 0) = negb (Z.testbit b j).
Proof.
  intros Hj. rewrite Z.shiftl_1_l.
  destruct (Z.testbit b j) eqn:E; cbn [negb].
  - apply Z.eqb_neq. intros H.
    assert (Z.testbit (Z.land b (2 ^ j)) j = true) as Hb
      by (by rewrite Z.land_spec, E, Z.pow2_bits_true).
    rewrite H, Z.bits_0 in Hb. done.
  - apply Z.eqb_eq, Z.bits_inj'. intros k Hk.
    rewrite Z.land_spec, Z.bits_0, Z.pow2_bits_eqb by done.
    destruct (Z.eqb_spec j k) as [->|]; [by rewrite E|].
    apply andb_false_r.
Qed.

Lemma bits_of_byte_elem b i offset (n : nat) :
  ∀ j bits x, 0 ≤ j →
  x ∈ bits_of_byte b i offset j n bits ↔
  x ∈ bits ∨ ∃ j', j ≤ j' < j + Z.of_nat n ∧ Z.testbit b j' = true
                   ∧ x = j' + i * 8 + offset.
Proof.
  induction n as [|n IH]; intros j bits x Hj.
  - cbn [bits_of_byte]. split; [auto|]. intros [?|(j' & ? & _)]; [done|lia].
  - cbn [bits_of_byte]. rewrite IH by lia. rewrite land_bit by done.
    rewrite negb_involutive.
    destruct (Z.testbit b j) eqn:E.
    + rewrite elem_of_union, elem_of_singleton. split.
      * intros [[->|?]|(j' & ? & ? & ?)]; [right; exists j|by left|right; exists j'];
          repeat split; try done; lia.
      * intros [?|(j' & Hr & Hb & ->)]; [by left; right|].
        destruct (decide (j' = j)) as [->|]; [by left; left|].
        right. exists j'. repeat split; try done; lia.
    + split.
      * intros [?|(j' & ? & ? & ?)]; [by left|right; exists j'].
        repeat split; try done; lia.
      * intros [?|(j' & Hr & Hb & ->)]; [by left|].
        destruct (decide (j' = j)) as [->|]; [congruence|].
        right. exists j'. repeat split; try done; lia.
Qed.

Lemma bits_of_bytes_elem data offset :
  ∀ i bits x,
  x ∈ bits_of_bytes data offset i bits ↔
  x ∈ bits ∨ ∃ (k : nat) b j, data !! k = Some b ∧ 0 ≤ j < 8
                 ∧ Z.testbit b j = true
                 ∧ x = j + (i + Z.of_nat k) * 8 + offset.
Proof.
  induction data as [|b data IH]; intros i bits x.
  - cbn [bits_of_bytes]. split; [auto|]. by intros [?|(k & ? & ? & ? & _)].
  - cbn [bits_of_bytes]. rewrite IH, bits_of_byte_elem by lia. split.
    + intros [[?|(j & ? & ? & ->)]|(k & b' & j & ? & ? & ? & ->)].
      * by left.
      * right. exists 0%nat, b, j. repeat split; try done; lia.
      * right. exists (S k), b', j. repeat split; try done; lia.
    + intros [?|(k & b' & j & Hk & ? & ? & ->)]; [by left; left|].
      destruct k as [|k].
      * injection Hk as ->. left. right. exists j. repeat split; try done; lia.
      * right. exists k, b', j. repeat split; try done; lia.
Qed.

(** X1: the set built by [_ExtractBitVector] holds exactly the numbers
    [j + i * 8 + offset] for which bit [j], below 8, of the byte
    [data[i]] is set. *)
Theorem ExtractBitVector_elem (data : list Z) (offset x : Z) :
  x ∈ _ExtractBitVector data offset ↔
  ∃ (i : nat) (b j : Z),
    data !! i = Some b ∧ 0 ≤ j < 8 ∧ Z.testbit b j = true
    ∧ x = j + Z.of_nat i * 8 + offset.
Proof.
  unfold _ExtractBitVector. rewrite bits_of_bytes_elem. split.
  - intros [?%not_elem_of_empty|(k & b & j & ? & ? & ? & ->)]; [done|].
    exists k, b, j. repeat split; try done; lia.
  - intros (k & b & j & ? & ? & ? & ->). right.
    exists k, b, j. repeat split; try done; lia.
Qed.

(** X2: a bit vector field, the length byte followed by that many data
    bytes, is decoded wherever it stands in the frame: the cursor moves
    past it, and the set holds [8 * i + j] exactly when bit [j] of data
    byte [i] is set. *)
Theorem ParseBitVector_field (pre data post : list Z) :
  ∃ bits,
    _ParseBitVector (pre ++ (len data :: data) ++ post) (len pre)
    = Ok (len pre + 1 + len data, VSet bits)
    ∧ ∀ x, x ∈ bits ↔
        ∃ (i : nat) (b j : Z),
          data !! i = Some b ∧ 0 ≤ j < 8 ∧ Z.testbit b j = true
          ∧ x = 8 * Z.of_nat i + j.
Proof.
  exists (_ExtractBitVector data 0). split.
  - unfold _ParseBitVector.
    rewrite (getitem_app_0 pre _ (len data)) by done.
    cbn [mbind result_bind].
    replace (pre ++ (len data :: data) ++ post)
      with ((pre ++ [len data]) ++ data ++ post) by (by rewrite <- app_assoc).
    replace (len pre + 1) with (len (pre ++ [len data]))
      by (rewrite len_app; reflexivity).
    by rewrite slice_app.
  - intros x. unfold _ExtractBitVector. rewrite bits_of_bytes_elem. split.
    + intros [?%not_elem_of_empty|(i & b & j & ? & ? & ? & ->)]; [done|].
      exists i, b, j. repeat split; try done; lia.
    + intros (i & b & j & ? & ? & ? & ->). right.
      exists i, b, j. repeat split; try done; lia.
Qed.

(** ** The parsers that take the rest of the frame *)

Lemma slice_from_drop {A} (m : list A) index :
  0 ≤ index → slice_from m index = drop (Z.to_nat index) m.
Proof.
  intros Hi. unfold slice_from, clamp.
  destruct (Z.ltb_spec index 0) as [?|_]; [lia|].
  destruct (Z.min_spec index (len m)) as [[? ->]|[? ->]]; [done|].
  unfold len in *. rewrite Nat2Z.id, !drop_ge; [done|lia|lia].
Qed.

Lemma slice_to_end {A} (m : list A) index :
  0 ≤ index →
  slice m index (index + (len m - index)) = drop (Z.to_nat index) m.
Proof.
  intros Hi. replace (index + (len m - index)) with (len m) by lia.
  unfold slice. pose proof (len_nonneg m).
  rewrite (clamp_inside m (len m)) by lia.
  fold (slice_from m index). rewrite <- slice_from_drop by done.
  unfold slice_from. apply take_ge.
  rewrite length_drop. unfold clamp.
  destruct (Z.ltb_spec index 0) as [?|_]; [lia|].
  unfold len in *. lia.
Qed.

(** X3: the four parsers that take the rest of the frame ([L], [D], [R]
    and [U]) succeed at every cursor that is not negative, decode the
    bytes from the cursor on, and leave the cursor at the end of the
    frame; from a cursor beyond the end they return the empty value and
    bring the cursor back to the end. *)
Theorem rest_parsers (m : list Z) (index : Z) :
  0 ≤ index →
  let rest := drop (Z.to_nat index) m in
  _ParseListRest m index = Ok (len m, VList (VInt <$> rest))
  ∧ _ParseDataRest m index = Ok (len m, VList (VInt <$> rest))
  ∧ _ParseRestLittleEndianInt m index
    = Ok (len m, VInt (_GetIntLittleEndian rest))
  ∧ _ParseBitVectorRest m index
    = Ok (len m, VSet (_ExtractBitVector rest 0)).
Proof.
  intros Hi rest.
  unfold _ParseListRest, _ParseDataRest, _ParseRestLittleEndianInt,
    _ParseBitVectorRest.
  rewrite slice_to_end, slice_from_drop by done.
  replace (index + (len m - index)) with (len m) by lia.
  done.
Qed.

(** An instance: a cursor inside the frame, and one beyond its end. *)
Lemma rest_parsers_witness :
  _ParseDataRest [0x20; 0x01; 7; 8] 2 = Ok (4, VList [VInt 7; VInt 8])
  ∧ _ParseDataRest [0x20; 0x01; 7; 8] 6 = Ok (4, VList []).
Proof.
  split.
  - apply (rest_parsers [0x20; 0x01; 7; 8] 2). lia.
  - apply (rest_parsers [0x20; 0x01; 7; 8] 6). lia.
Defined.

(** ** Integers from bytes *)

Lemma little_endian_loop_shift l :
  ∀ x shift, 0 ≤ shift →
  little_endian_loop l x shift = x + 2 ^ shift * little_endian_loop l 0 0.
Proof.
  induction l as [|b l IH]; intros x shift Hs.
  - cbn. lia.
  - cbn [little_endian_loop]. rewrite IH by lia.
    rewrite (IH (0 + Z.shiftl b 0) (0 + 8)) by lia.
    rewrite Z.shiftl_mul_pow2, Z.shiftl_0_r by lia.
    rewrite Z.pow_add_r by lia. lia.
Qed.

Lemma GetIntLittleEndian_cons b l :
  _GetIntLittleEndian (b :: l) = b + 256 * _GetIntLittleEndian l.
Proof.
  unfold _GetIntLittleEndian. cbn [little_endian_loop].
  rewrite little_endian_loop_shift by lia.
  rewrite Z.shiftl_0_r. change (2 ^ (0 + 8)) with 256. lia.
Qed.

Lemma GetIntLittleEndian_app l b :
  _GetIntLittleEndian (l ++ [b]) = _GetIntLittleEndian l + b * 256 ^ len l.
Proof.
  induction l as [|a l IH].
  - change (_GetIntLittleEndian [b] = 0 + b * 1). rewrite GetIntLittleEndian_cons.
    change (_GetIntLittleEndian []) with 0. lia.
  - cbn [app]. rewrite !GetIntLittleEndian_cons, IH.
    replace (len (a :: l)) with (len l + 1) by (unfold len; simpl; lia).
    rewrite Z.pow_add_r by (pose proof (len_nonneg l); lia). lia.
Qed.

Lemma GetIntBigEndian_cons b l :
  _GetIntBigEndian (b :: l) = b * 256 ^ len l + _GetIntBigEndian l.
Proof.
  unfold _GetIntBigEndian. cbn [big_endian_loop].
  rewrite big_endian_loop_shift, Z.shiftl_0_l. lia.
Qed.

(** X4: the two accumulators read the same number from opposite ends: the
    little-endian value of a list is the big-endian value of the list
    reversed, for lists of any integers. *)
Theorem GetIntLittleEndian_reverse (l : list Z) :
  _GetIntLittleEndian (reverse l) = _GetIntBigEndian l.
Proof.
  induction l as [|b l IH]; [done|].
  rewrite reverse_cons, GetIntLittleEndian_app, IH, GetIntBigEndian_cons.
  unfold len. rewrite length_reverse. lia.
Qed.

Lemma GetIntBigEndian_bound l :
  Forall (λ b, 0 ≤ b < 256) l →
  0 ≤ _GetIntBigEndian l < 256 ^ len l.
Proof.
  induction 1 as [|b l Hb _ IH]; [done|].
  rewrite GetIntBigEndian_cons.
  replace (len (b :: l)) with (len l + 1) by (unfold len; simpl; lia).
  rewrite Z.pow_add_r by (pose proof (len_nonneg l); lia).
  nia.
Qed.

Lemma GetIntLittleEndian_bound l :
  Forall (λ b, 0 ≤ b < 256) l →
  0 ≤ _GetIntLittleEndian l < 256 ^ len l.
Proof.
  induction 1 as [|b l Hb _ IH]; [done|].
  rewrite GetIntLittleEndian_cons.
  replace (len (b :: l)) with (len l + 1) by (unfold len; simpl; lia).
  rewrite Z.pow_add_r by (pose proof (len_nonneg l); lia). lia.
Qed.

(** X5: on a list of [n] bytes both accumulators return a number from 0
    up to, and not including, [256 ^ n]. *)
Theorem GetInt_bounds (l : list Z) :
  Forall (λ b, 0 ≤ b < 256) l →
  0 ≤ _GetIntLittleEndian l < 256 ^ len l
  ∧ 0 ≤ _GetIntBigEndian l < 256 ^ len l.
Proof.
  intros Hl. split;
    [by apply GetIntLittleEndian_bound | by apply GetIntBigEndian_bound].
Qed.

Lemma GetInt_bounds_witness :
  0 ≤ _GetIntLittleEndian [0x34; 0x12] < 256 ^ 2
  ∧ 0 ≤ _GetIntBigEndian [0x34; 0x12] < 256 ^ 2.
Proof.
  apply (GetInt_bounds [0x34; 0x12]).
  repeat constructor; lia.
Defined.

(** X6: the little-endian integer keeps all the information of the
    bytes: two lists of bytes of the same length with the same value are
    the same list. *)
Theorem GetIntLittleEndian_inj (l1 l2 : list Z) :
  Forall (λ b, 0 ≤ b < 256) l1 →
  Forall (λ b, 0 ≤ b < 256) l2 →
  length l1 = length l2 →
  _GetIntLittleEndian l1 = _GetIntLittleEndian l2 →
  l1 = l2.
Proof.
  intros H1. revert l2.
  induction H1 as [|b1 l1 Hb1 _ IH]; intros l2 H2 Hlen Heq.
  - by destruct l2.
  - destruct H2 as [|b2 l2 Hb2 H2]; [done|].
    rewrite !GetIntLittleEndian_cons in Heq.
    assert (b1 = b2 ∧ _GetIntLittleEndian l1 = _GetIntLittleEndian l2)
      as [-> Hr] by lia.
    f_equal. apply IH; [done| |done]. simpl in Hlen. lia.
Qed.

Lemma GetIntLittleEndian_inj_witness : [0x34; 0x12] = [0x34; 0x12].
Proof.
  apply GetIntLittleEndian_inj; [repeat constructor; lia ..| |]; reflexivity.
Defined.

(** ** The parsers that check the bytes that remain *)

Lemma getitem_in_range {A} (m : list A) i :
  0 ≤ i < len m → ∃ x, getitem m i = Ok x.
Proof.
  intros [H0 H1]. unfold getitem.
  destruct (Z.ltb_spec i 0) as [?|_]; [lia|].
  destruct (Z.ltb_spec i 0) as [?|_]; [lia|].
  destruct (lookup_lt_is_Some_2 m (Z.to_nat i)) as [x ->]; [|eauto].
  unfold len in H1. lia.
Qed.

Lemma signed_loop_in_range m index negative (n : nat) :
  ∀ i value, 0 ≤ index + i → index + i + Z.of_nat n ≤ len m →
  ∃ v, signed_loop m index negative i n value = Ok v.
Proof.
  induction n as [|n IH]; intros i value H0 H1; [by eexists|].
  cbn [signed_loop].
  destruct (getitem_in_range m (index + i)) as [b ->]; [lia|].
  cbn [mbind result_bind]. apply IH; lia.
Qed.

Lemma float_of_int_raises z e : float_of_int z = Raise e → e = OverflowError.
Proof.
  unfold float_of_int.
  by destruct (binary_normalize _ _ _ _ _); intros [= <-].
Qed.

Lemma GetSignedValue_in_range m index size e :
  0 ≤ index < len m → index + size ≤ len m →
  _GetSignedValue m index size = Raise e → e = OverflowError.
Proof.
  intros Hi Hs. unfold _GetSignedValue.
  destruct (getitem_in_range m index Hi) as [b0 ->]. cbn [mbind result_bind].
  destruct (signed_loop_in_range m index (negb (Z.land b0 128 =? 0))
              (Z.to_nat size) 0 0) as [v ->]; [lia|lia|].
  cbn [mbind result_bind].
  destruct (negb _).
  - destruct (float_of_int (v + 1)) eqn:E; [done|].
    cbn [mbind result_bind]. intros [= <-]. by eapply float_of_int_raises.
  - apply float_of_int_raises.
Qed.

Lemma land_7_range c : 0 ≤ Z.land c 7 ≤ 7.
Proof.
  assert (Z.land c 7 = c `mod` 8) as -> by apply (Z.land_ones c 3 ltac:(lia)).
  pose proof (Z.mod_pos_bound c 8). lia.
Qed.

Lemma float_div_pow10 x p :
  0 ≤ p ≤ 7 → ∃ y, float_div_int x (10 ^ p) = Ok y.
Proof.
  intros Hp.
  assert (p = 0 ∨ p = 1 ∨ p = 2 ∨ p = 3 ∨ p = 4 ∨ p = 5 ∨ p = 6 ∨ p = 7)
    as Hc by lia.
  destruct Hc as [->|[->|[->|[->|[->|[->|[->| ->]]]]]]]; by eexists.
Qed.

Lemma ParseSensor_in_frame m index :
  0 ≤ index →
  (∀ e, _ParseSensor m index = Raise e → e = OverflowError)
  ∧ ∀ i v, _ParseSensor m index = Ok (i, v) →
      if is_None v then i = index else index < i ≤ len m.
Proof.
  intros Hi. unfold _ParseSensor.
  destruct (Z.ltb_spec (len m) (index + 2)) as [?|Hl2].
  { split; [done|]. by intros i v [= <- <-]. }
  destruct (getitem_in_range m index) as [c ->]; [lia|].
  cbn [mbind result_bind].
  pose proof (land_7_range c) as Hsz.
  pose proof (land_7_range (Z.shiftr c 5)) as Hpr.
  destruct (Z.ltb_spec (len m) (index + 1 + Z.land c 7)) as [?|Hl].
  { split; [done|]. by intros i v [= <- <-]. }
  destruct (_GetSignedValue m (index + 1) (Z.land c 7)) as [f|e] eqn:E.
  - cbn [mbind result_bind].
    destruct (float_div_pow10 f (Z.land (Z.shiftr c 5) 7) Hpr) as [y ->].
    cbn [mbind result_bind]. split; [done|].
    intros i v [= <- <-]. cbn [is_None]. lia.
  - cbn [mbind result_bind]. split; [|done].
    intros e' [= <-]. eapply GetSignedValue_in_range; [| |exact E]; lia.
Qed.

(** X7: the parsers [B], [W], [C], [O] and [X] keep inside the frame.
    From a cursor that is not negative they never read outside the
    frame (the only exception they can raise is the overflow of a
    float, in [X]); a field they return leaves the cursor after the old
    one and not beyond the end of the frame; with the field [None] the
    cursor is where it was, or, for [C], at the end of the frame. *)
Theorem guarded_parsers_in_frame (c : ascii) (p : parser) (m : list Z)
    (index : Z) :
  c ∈ ["B"; "W"; "C"; "O"; "X"]%char →
  _PARSE_ACTIONS c = Some p →
  0 ≤ index →
  (∀ e, p m index = Raise e → c = "X"%char ∧ e = OverflowError)
  ∧ ∀ i v, p m index = Ok (i, v) →
      if is_None v then i = index ∨ i = len m else index < i ≤ len m.
Proof.
  intros Hc Hp Hi. pose proof (len_nonneg m).
  repeat (apply elem_of_cons in Hc as [->|Hc]); [..|by apply elem_of_nil in Hc];
    injection Hp as <-.
  - unfold _ParseByte.
    destruct (Z.leb_spec (len m) index).
    { split; [done|]. intros i v [= <- <-]. by left. }
    destruct (getitem_in_range m index) as [b ->]; [lia|].
    split; [done|]. intros i v [= <- <-]. cbn. lia.
  - unfold _ParseWord.
    destruct (Z.leb_spec (len m) (index + 1)).
    { split; [done|]. intros i v [= <- <-]. by left. }
    destruct (getitem_in_range m index) as [a ->]; [lia|].
    destruct (getitem_in_range m (index + 1)) as [b ->]; [lia|].
    split; [done|]. intros i v [= <- <-]. cbn. lia.
  - unfold _ParseDate.
    destruct (Z.ltb_spec (len m) (index + 7)).
    { split; [done|]. intros i v [= <- <-]. by right. }
    destruct (getitem_in_range m index) as [? ->]; [lia|].
    destruct (getitem_in_range m (index + 1)) as [? ->]; [lia|].
    destruct (getitem_in_range m (index + 2)) as [? ->]; [lia|].
    destruct (getitem_in_range m (index + 3)) as [? ->]; [lia|].
    destruct (getitem_in_range m (index + 4)) as [? ->]; [lia|].
    destruct (getitem_in_range m (index + 5)) as [? ->]; [lia|].
    destruct (getitem_in_range m (index + 6)) as [? ->]; [lia|].
    split; [done|]. intros i v [= <- <-]. cbn. lia.
  - unfold _ParseNonce.
    destruct (Z.ltb_spec (len m) (index + 8)).
    { split; [done|]. intros i v [= <- <-]. by left. }
    split; [done|]. intros i v [= <- <-]. cbn. lia.
  - destruct (ParseSensor_in_frame m index Hi) as [He Hv].
    split; [by intros e ?%He|].
    intros i v Hr. specialize (Hv i v Hr). destruct (is_None v); [by left|done].
Qed.

(** An instance: a word at the cursor 2 of a four-byte frame. *)
Lemma guarded_parsers_in_frame_witness :
  (∀ e, _ParseWord [0x20; 0x01; 1; 2] 2 = Raise e
        → "W"%char = "X"%char ∧ e = OverflowError)
  ∧ ∀ i v, _ParseWord [0x20; 0x01; 1; 2] 2 = Ok (i, v) →
      if is_None v then i = 2 ∨ i = len [0x20; 0x01; 1; 2]
      else 2 < i ≤ len [0x20; 0x01; 1; 2].
Proof.
  apply (guarded_parsers_in_frame "W" _ParseWord [0x20; 0x01; 1; 2] 2);
    [by apply (bool_decide_unpack _) | reflexivity | lia].
Defined.

(** ** Whole frames *)

Lemma parse_fields_all_or_nothing table m :
  ∀ index out0 r, parse_fields table m index out0 = Ok r →
  r = VNone
  ∨ ∃ new, r = VList (out0 ++ new)
           ∧ length new = length table
           ∧ Forall (λ v, is_None v = false) new.
Proof.
  induction table as [|t table IH]; intros index out0 r.
  - cbn [parse_fields]. intros [= <-]. right. exists [].
    by rewrite app_nil_r.
  - cbn [parse_fields]. destruct (tag_of t) as [c|]; [|done].
    cbn [mbind result_bind].
    destruct (_PARSE_ACTIONS c) as [p|]; [|done].
    destruct (p m index) as [[i v]|]; [|done]. cbn [mbind result_bind].
    destruct (is_None v) eqn:Hv; [intros [= <-]; by left|].
    intros [->|(new & -> & Hlen & Hall)]%IH; [by left|].
    right. exists (v :: new). rewrite <- app_assoc. repeat split.
    + simpl. by rewrite Hlen.
    + by constructor.
Qed.

Section WholeFrames.
Variable SUBCMD_TO_PARSE_TABLE : Z → option schema.

(** X8: decoding is all or nothing.  For a registered key
    [ParseCommand] returns, when it returns, [None] or a list with one
    field for every entry of the schema, none of them [None]: never a
    shorter list. *)
Theorem ParseCommand_all_or_nothing (class command : Z) (body : list Z)
    (table : schema) (r : pyval) :
  SUBCMD_TO_PARSE_TABLE (class * 256 + command) = Some table →
  ParseCommand SUBCMD_TO_PARSE_TABLE (class :: command :: body) = Ok r →
  r = VNone
  ∨ ∃ out, r = VList out
           ∧ length out = length table
           ∧ Forall (λ v, is_None v = false) out.
Proof.
  intros Hkey. unfold ParseCommand, _GetParameterDescriptors.
  destruct (Z.ltb_spec (len (class :: command :: body)) 2) as [Hl|_].
  { unfold len in Hl. simpl in Hl. lia. }
  assert (getitem (class :: command :: body) 0 = Ok class) as ->
    by reflexivity.
  assert (getitem (class :: command :: body) 1 = Ok command) as ->
    by reflexivity.
  cbn [mbind result_bind]. rewrite Hkey.
  intros [->|(new & -> & ? & ?)]%parse_fields_all_or_nothing; [by left|].
  right. by exists new.
Qed.
End WholeFrames.

(** An instance: two byte fields. *)
Lemma ParseCommand_all_or_nothing_witness :
  let table : Z → option schema :=
    λ k, if k =? 0x2001 then Some ["B{a}"; "B{b}"]%string else None in
  VList [VInt 7; VInt 8] = VNone
  ∨ ∃ out, VList [VInt 7; VInt 8] = VList out
           ∧ length out = 2%nat
           ∧ Forall (λ v, is_None v = false) out.
Proof.
  intros table.
  apply (ParseCommand_all_or_nothing table 0x20 0x01 [7; 8]
           ["B{a}"; "B{b}"]%string); reflexivity.
Defined.

Lemma parse_fields_bytes table :
  Forall (λ t, tag_of t = Ok "B"%char) table →
  ∀ pre body out,
  parse_fields table (pre ++ body) (len pre) out
  = if len body <? len table then Ok VNone
    else Ok (VList (out ++ (VInt <$> take (length table) body))).
Proof.
  induction 1 as [|t table Ht _ IH]; intros pre body out.
  - cbn [parse_fields]. pose proof (len_nonneg body).
    change (len (@nil string)) with 0.
    destruct (Z.ltb_spec (len body) 0) as [Hl|_]; [lia|].
    by rewrite take_0, app_nil_r.
  - cbn [parse_fields]. rewrite Ht. cbn [mbind result_bind].
    change (_PARSE_ACTIONS "B") with (Some _ParseByte).
    replace (len (t :: table)) with (len table + 1)
      by (unfold len; simpl; lia).
    destruct body as [|b body].
    + rewrite app_nil_r, ParseByte_truncated by lia. cbn [mbind result_bind is_None].
      pose proof (len_nonneg table). change (len (@nil Z)) with 0.
      by destruct (Z.ltb_spec 0 (len table + 1)); [|lia].
    + unfold _ParseByte. pose proof (len_nonneg body).
      replace (len (b :: body)) with (len body + 1)
        by (unfold len; simpl; lia).
      rewrite len_app.
      replace (len (b :: body)) with (len body + 1)
        by (unfold len; simpl; lia).
      destruct (Z.leb_spec (len pre + (len body + 1)) (len pre)) as [Hl|_];
        [lia|].
      rewrite (getitem_app_0 pre _ b) by done.
      cbn [mbind result_bind is_None].
      replace (pre ++ b :: body) with ((pre ++ [b]) ++ body)
        by (by rewrite <- app_assoc).
      replace (len pre + 1) with (len (pre ++ [b]))
        by (rewrite len_app; reflexivity).
      rewrite IH.
      destruct (Z.ltb_spec (len body) (len table));
        destruct (Z.ltb_spec (len body + 1) (len table + 1)); try lia;
        [done|].
      by rewrite <- app_assoc.
Qed.

Section ByteSchemas.
Variable SUBCMD_TO_PARSE_TABLE : Z → option schema.

(** X9: a schema of [n] byte fields ([B] tags only).  A body of fewer
    than [n] bytes decodes to [None]; otherwise the fields are the first
    [n] bytes of the body, and the bytes after them are ignored. *)
Theorem ParseCommand_byte_schema (class command : Z) (body : list Z)
    (table : schema) :
  SUBCMD_TO_PARSE_TABLE (class * 256 + command) = Some table →
  Forall (λ t, tag_of t = Ok "B"%char) table →
  ParseCommand SUBCMD_TO_PARSE_TABLE (class :: command :: body)
  = if len body <? len table then Ok VNone
    else Ok (VList (VInt <$> take (length table) body)).
Proof.
  intros Hkey Htable. unfold ParseCommand, _GetParameterDescriptors.
  destruct (Z.ltb_spec (len (class :: command :: body)) 2) as [Hl|_].
  { unfold len in Hl. simpl in Hl. lia. }
  assert (getitem (class :: command :: body) 0 = Ok class) as ->
    by reflexivity.
  assert (getitem (class :: command :: body) 1 = Ok command) as ->
    by reflexivity.
  cbn [mbind result_bind]. rewrite Hkey.
  apply (parse_fields_bytes table Htable [class; command] body []).
Qed.
End ByteSchemas.

(** Instances: a body that is too short, and one with a byte to spare. *)
Lemma ParseCommand_byte_schema_witness :
  let table : Z → option schema :=
    λ k, if k =? 0x2001 then Some ["B{a}"; "B{b}"]%string else None in
  ParseCommand table [0x20; 0x01; 7] = Ok VNone
  ∧ ParseCommand table [0x20; 0x01; 7; 8; 9] = Ok (VList [VInt 7; VInt 8]).
Proof.
  intros table. split.
  - apply (ParseCommand_byte_schema table 0x20 0x01 [7]
             ["B{a}"; "B{b}"]%string); [reflexivity|].
    repeat constructor.
  - apply (ParseCommand_byte_schema table 0x20 0x01 [7; 8; 9]
             ["B{a}"; "B{b}"]%string); [reflexivity|].
    repeat constructor.
Defined.

Lemma fixed_fields_roundtrip table :
  ∀ args, fixed_args_shape table args = true →
  ∃ enc,
    (∀ pfx data,
       assemble_fields table (pfx ++ args) (len pfx - 2) data = Ok (data ++ enc))
    ∧ (∀ data out post,
         parse_fields table (data ++ enc ++ post) (len data) out
         = Ok (VList (out ++ args))).
Proof.
  induction table as [|t table IH]; intros [|v args]; try done.
  { intros _. exists []. split; intros; cbn; by rewrite !app_nil_r. }
  cbn [fixed_args_shape]. destruct (tag_of t) as [c|] eqn:Ht; [|done].
  intros [Hf Hargs]%andb_prop.
  destruct (field_roundtrip t c v Ht Hf) as (enc1 & p & Hp & Hv & Ha & Hd).
  destruct (IH args Hargs) as (enc & HA & HD).
  exists (enc1 ++ enc). split.
  - intros pfx data. cbn [assemble_fields].
    replace (len pfx - 2 + 2) with (len pfx) by lia.
    rewrite (getitem_app_0 pfx _ v) by done. cbn [mbind result_bind].
    rewrite Ha. cbn [mbind result_bind].
    replace (len pfx - 2 + 1) with (len (pfx ++ [v]) - 2)
      by (rewrite len_app; change (len [v]) with 1; lia).
    replace (pfx ++ v :: args) with ((pfx ++ [v]) ++ args)
      by (by rewrite <- app_assoc).
    by rewrite HA, app_assoc.
  - intros data out post. cbn [parse_fields]. rewrite Ht.
    cbn [mbind result_bind]. rewrite Hp.
    rewrite <- (app_assoc enc1 enc post), Hd. cbn [mbind result_bind].
    rewrite Hv, app_assoc, <- len_app, HD.
    by rewrite <- app_assoc.
Qed.

Section TrailingBytes.
Variable SUBCMD_TO_PARSE_TABLE : Z → option schema.

(** X10: bytes after the last field are not looked at.  For a schema of
    the tags [B], [C], [O] and [V] and arguments of its shapes, the
    frame that [AssembleCommand] builds decodes to the arguments also
    when any bytes are appended to it. *)
Theorem ParseCommand_ignores_trailing_bytes (class command : Z)
    (table : schema) (args : list pyval) :
  SUBCMD_TO_PARSE_TABLE (class * 256 + command) = Some table →
  fixed_args_shape table args = true →
  ∃ frame,
    AssembleCommand SUBCMD_TO_PARSE_TABLE (VInt class :: VInt command :: args)
    = Ok frame
    ∧ ∀ extra,
        ParseCommand SUBCMD_TO_PARSE_TABLE (frame ++ extra) = Ok (VList args).
Proof.
  intros Hkey Hargs.
  destruct (fixed_fields_roundtrip table args Hargs) as (enc & HA & HD).
  exists ([class; command] ++ enc). split.
  - unfold AssembleCommand.
    assert (getitem (VInt class :: VInt command :: args) 0 = Ok (VInt class))
      as -> by reflexivity.
    assert (getitem (VInt class :: VInt command :: args) 1 = Ok (VInt command))
      as -> by reflexivity.
    cbn [mbind result_bind as_int]. rewrite Hkey.
    apply (HA [VInt class; VInt command] [class; command]).
  - intros extra. unfold ParseCommand, _GetParameterDescriptors.
    pose proof (len_nonneg (enc ++ extra)).
    rewrite <- app_assoc.
    destruct (Z.ltb_spec (len ([class; command] ++ enc ++ extra)) 2) as [Hl|_].
    { rewrite len_app in Hl. change (len [class; command]) with 2 in Hl. lia. }
    assert (getitem ([class; command] ++ enc ++ extra) 0 = Ok class) as ->
      by reflexivity.
    assert (getitem ([class; command] ++ enc ++ extra) 1 = Ok command) as ->
      by reflexivity.
    cbn [mbind result_bind]. rewrite Hkey.
    apply (HD [class; command] [] extra).
Qed.
End TrailingBytes.

(** An instance: a byte and a two-byte value. *)
Lemma ParseCommand_ignores_trailing_bytes_witness :
  let table : Z → option schema :=
    λ k, if k =? 0x7004 then Some ["B{parameter}"; "V{value}"]%string
         else None in
  let args := [VInt 3; VList [VInt 2; VInt 513]] in
  ∃ frame,
    AssembleCommand table (VInt 0x70 :: VInt 0x04 :: args) = Ok frame
    ∧ ∀ extra, ParseCommand table (frame ++ extra) = Ok (VList args).
Proof.
  intros table args.
  apply (ParseCommand_ignores_trailing_bytes table 0x70 0x04
           ["B{parameter}"; "V{value}"]%string args); reflexivity.
Defined.

(** ** Values of 1, 2 or 4 bytes *)

Lemma MakeValue_spec conf value :
  let size := Z.land conf 7 in
  if (size =? 1) || (size =? 2) || (size =? 4) then
    ∃ bytes,
      _MakeValue conf value = Ok (conf :: bytes)
      ∧ len bytes = size
      ∧ Forall (λ b, 0 ≤ b < 256) bytes
      ∧ _GetIntBigEndian bytes = value `mod` 256 ^ size
  else _MakeValue conf value = Raise AssertionError.
Proof.
  intros size. subst size. unfold _MakeValue.
  assert (B : ∀ x, 0 ≤ Z.land 255 x < 256).
  { intros x. rewrite land_255. apply Z.mod_pos_bound. lia. }
  destruct (Z.eqb_spec (Z.land conf 7) 1) as [->|N1]; cbn [orb].
  { exists [Z.land 255 (Z.shiftr value 0)]. repeat split.
    - repeat constructor; apply B.
    - unfold _GetIntBigEndian, big_endian_loop.
      rewrite land_255, Z.shiftr_0_r, Z.shiftl_0_l. done. }
  destruct (Z.eqb_spec (Z.land conf 7) 2) as [->|N2]; cbn [orb].
  { exists [Z.land 255 (Z.shiftr value 8); Z.land 255 (Z.shiftr value 0)].
    repeat split.
    - repeat constructor; apply B.
    - unfold _GetIntBigEndian, big_endian_loop.
      rewrite !land_255, Z.shiftr_0_r, Z.shiftl_0_l.
      rewrite !Z.shiftr_div_pow2, !Z.shiftl_mul_pow2 by lia.
      change (2 ^ 8) with 256. change (256 ^ 2) with 65536.
      Z.div_mod_to_equations. lia. }
  destruct (Z.eqb_spec (Z.land conf 7) 4) as [->|N4]; [|done].
  exists [Z.land 255 (Z.shiftr value 24); Z.land 255 (Z.shiftr value 16);
          Z.land 255 (Z.shiftr value 8); Z.land 255 (Z.shiftr value 0)].
  repeat split.
  - repeat constructor; apply B.
  - unfold _GetIntBigEndian, big_endian_loop.
    rewrite !land_255, Z.shiftr_0_r, Z.shiftl_0_l.
    rewrite !Z.shiftr_div_pow2, !Z.shiftl_mul_pow2 by lia.
    change (2 ^ 8) with 256. change (2 ^ 16) with 65536.
    change (2 ^ 24) with 16777216. change (256 ^ 4) with 4294967296.
    Z.div_mod_to_equations. lia.
Qed.

(** X11: [_MakeValue] accepts a configuration byte whose low three bits,
    the size, are 1, 2 or 4, and fails its assertion on every other.
    It emits the configuration byte and then [size] bytes, the
    big-endian digits of [value] reduced modulo [256 ^ size]: a value
    that does not fit, or a negative one, is wrapped, not refused. *)
Theorem MakeValue_bytes (conf value : Z) :
  let size := Z.land conf 7 in
  if (size =? 1) || (size =? 2) || (size =? 4) then
    ∃ bytes,
      _MakeValue conf value = Ok (conf :: bytes)
      ∧ len bytes = size
      ∧ Forall (λ b, 0 ≤ b < 256) bytes
      ∧ _GetIntBigEndian bytes = value `mod` 256 ^ size
  else _MakeValue conf value = Raise AssertionError.
Proof. apply MakeValue_spec. Qed.

(** X12: what [_MakeValue] emits, [_ParseValue] reads back as the pair
    of the size and the value modulo [256 ^ size], wherever the field
    stands: the bits of the configuration byte above the size do not
    come back, and a value comes back unchanged only if it is in
    range. *)
Theorem ParseValue_MakeValue (conf value : Z) (enc pre post : list Z) :
  _MakeValue conf value = Ok enc →
  _ParseValue (pre ++ enc ++ post) (len pre)
  = Ok (len pre + len enc,
        VList [VInt (Z.land conf 7);
               VInt (value `mod` 256 ^ Z.land conf 7)]).
Proof.
  intros Henc. pose proof (MakeValue_spec conf value) as H. cbn zeta in H.
  destruct (_ || _); [|congruence].
  destruct H as (bytes & HM & Hl & _ & HB).
  rewrite HM in Henc. injection Henc as <-.
  unfold _ParseValue.
  rewrite (getitem_app_0 pre _ conf) by done. cbn [mbind result_bind].
  replace (pre ++ (conf :: bytes) ++ post)
    with ((pre ++ [conf]) ++ bytes ++ post) by (by rewrite <- app_assoc).
  replace (len pre + 1) with (len (pre ++ [conf]))
    by (rewrite len_app; reflexivity).
  pose proof (slice_app (pre ++ [conf]) bytes post) as HS.
  rewrite Hl in HS. rewrite HS, HB.
  do 2 f_equal. rewrite len_app. change (len [conf]) with 1.
  replace (len (conf :: bytes)) with (len bytes + 1)
    by (unfold len; simpl; lia).
  lia.
Qed.

(** Instances: a configuration byte with precision bits, and a negative
    value in one byte. *)
Lemma ParseValue_MakeValue_witness :
  _ParseValue ([0x70; 0x04] ++ [0x22; 0x01; 0x02] ++ []) 2
  = Ok (5, VList [VInt 2; VInt 258])
  ∧ _ParseValue ([0x70; 0x04] ++ [0x01; 0xFF] ++ []) 2
    = Ok (4, VList [VInt 1; VInt 255]).
Proof.
  split.
  - apply (ParseValue_MakeValue 0x22 258 [0x22; 0x01; 0x02] [0x70; 0x04] []).
    reflexivity.
  - apply (ParseValue_MakeValue 0x01 (-1) [0x01; 0xFF] [0x70; 0x04] []).
    reflexivity.
Defined.

(** ** Dates *)

(** X13: seven bytes decoded by [_ParseDate] and encoded again by
    [_MakeDate] are the same seven bytes, provided the low byte of the
    year is a byte. *)
Theorem MakeDate_ParseDate (pre post : list Z) (y1 y0 mo d h mi s : Z) :
  0 ≤ y0 < 256 →
  ∃ date,
    _ParseDate (pre ++ [y1; y0; mo; d; h; mi; s] ++ post) (len pre)
    = Ok (len pre + 7, date)
    ∧ _MakeDate date = Ok [y1; y0; mo; d; h; mi; s].
Proof.
  intros Hy. exists (VList [VInt (y1 * 256 + y0); VInt mo; VInt d; VInt h;
                            VInt mi; VInt s]).
  split.
  - unfold _ParseDate. pose proof (len_nonneg post).
    rewrite !len_app. change (len [y1; y0; mo; d; h; mi; s]) with 7.
    destruct (Z.ltb_spec (len pre + (7 + len post)) (len pre + 7)); [lia|].
    rewrite (getitem_app_0 pre _ y1) by done.
    rewrite (getitem_app pre _ 1 y0) by done.
    rewrite (getitem_app pre _ 2 mo) by done.
    rewrite (getitem_app pre _ 3 d) by done.
    rewrite (getitem_app pre _ 4 h) by done.
    rewrite (getitem_app pre _ 5 mi) by done.
    by rewrite (getitem_app pre _ 6 s) by done.
  - assert (_MakeDate (VList [VInt (y1 * 256 + y0); VInt mo; VInt d; VInt h;
                              VInt mi; VInt s])
            = Ok [(y1 * 256 + y0) `div` 256; (y1 * 256 + y0) `mod` 256;
                  mo; d; h; mi; s]) as -> by reflexivity.
    assert ((y1 * 256 + y0) `div` 256 = y1) as ->
      by (Z.div_mod_to_equations; lia).
    assert ((y1 * 256 + y0) `mod` 256 = y0) as ->
      by (Z.div_mod_to_equations; lia).
    done.
Qed.

(** An instance: 2016-12-31 23:59:58. *)
Lemma MakeDate_ParseDate_witness :
  ∃ date,
    _ParseDate ([0x8A; 0x01] ++ [7; 224; 12; 31; 23; 59; 58] ++ []) 2
    = Ok (2 + 7, date)
    ∧ _MakeDate date = Ok [7; 224; 12; 31; 23; 59; 58].
Proof.
  apply (MakeDate_ParseDate [0x8A; 0x01] [] 7 224 12 31 23 59 58). lia.
Defined.

(** ** What [AssembleCommand] builds *)

Lemma getitem_lookup_nonneg {A} (m : list A) i x :
  0 ≤ i → getitem m i = Ok x → m !! Z.to_nat i = Some x.
Proof.
  intros Hi. unfold getitem.
  destruct (Z.ltb_spec i 0) as [?|_]; [lia|].
  destruct (Z.ltb_spec i 0) as [?|_]; [lia|].
  by destruct (m !! Z.to_nat i); intros [= <-].
Qed.

Lemma getitem_app_l {A} (m extra : list A) i :
  0 ≤ i < len m → getitem (m ++ extra) i = getitem m i.
Proof.
  intros Hi. unfold getitem.
  destruct (Z.ltb_spec i 0) as [?|_]; [lia|].
  destruct (Z.ltb_spec i 0) as [?|_]; [lia|].
  rewrite lookup_app_l; [done|]. unfold len in Hi. lia.
Qed.





Section Assembled.
Variable SUBCMD_TO_PARSE_TABLE : Z → option schema.

End Assembled.


Lemma assemble_fields_surplus table raw_cmd extra :
  ∀ i data, 0 ≤ i → i + 2 + len table ≤ len raw_cmd →
  assemble_fields table (raw_cmd ++ extra) i data
  = assemble_fields table raw_cmd i data.
Proof.
  induction table as [|t table IH]; intros i data Hi Hlen; [done|].
  replace (len (t :: table)) with (len table + 1) in Hlen
    by (unfold len; simpl; lia).
  pose proof (len_nonneg table).
  cbn [assemble_fields]. rewrite getitem_app_l by lia.
  destruct (getitem raw_cmd (i + 2)) as [v|]; [|done].
  cbn [mbind result_bind].
  destruct (assemble_field t v data) as [data1|]; [|done].
  cbn [mbind result_bind]. apply IH; lia.
Qed.

Section Surplus.
Variable SUBCMD_TO_PARSE_TABLE : Z → option schema.

(** X15: arguments beyond the entries of the schema are not looked at:
    with an argument for every entry, further arguments change
    nothing, neither the frame nor an exception. *)
Theorem AssembleCommand_surplus_arguments (class command : Z)
    (table : schema) (args extra : list pyval) :
  SUBCMD_TO_PARSE_TABLE (class * 256 + command) = Some table →
  length args = length table →
  AssembleCommand SUBCMD_TO_PARSE_TABLE
    (VInt class :: VInt command :: args ++ extra)
  = AssembleCommand SUBCMD_TO_PARSE_TABLE (VInt class :: VInt command :: args).
Proof.
  intros Hkey Hlen. unfold AssembleCommand.
  assert (∀ l, getitem (VInt class :: VInt command :: l) 0 = Ok (VInt class))
    as G0 by reflexivity.
  assert (∀ l, getitem (VInt class :: VInt command :: l) 1 = Ok (VInt command))
    as G1 by reflexivity.
  rewrite !G0, !G1. cbn [mbind result_bind as_int]. rewrite Hkey.
  apply (assemble_fields_surplus table (VInt class :: VInt command :: args));
    [lia|].
  unfold len. simpl. lia.
Qed.
End Surplus.

(** An instance: a second argument for a schema of one byte. *)
Lemma AssembleCommand_surplus_arguments_witness :
  let table : Z → option schema :=
    λ k, if k =? 0x2001 then Some ["B{level}"%string] else None in
  AssembleCommand table (VInt 0x20 :: VInt 0x01 :: [VInt 99] ++ [VNone])
  = AssembleCommand table (VInt 0x20 :: VInt 0x01 :: [VInt 99]).
Proof.
  intros table.
  apply (AssembleCommand_surplus_arguments table 0x20 0x01
           ["B{level}"%string] [VInt 99] [VNone]); reflexivity.
Defined.

Section NonceAndKey.
Variable SUBCMD_TO_PARSE_TABLE : Z → option schema.

(** X16: the encoder does not enforce the length of a nonce.  For a
    schema of one [O] entry, a list of integers of any length is put in
    the frame as it is; the frame decodes to the argument exactly when
    the list has 8 entries. *)
Theorem nonce_roundtrip_iff (class command : Z) (t : string) (zs : list Z) :
  SUBCMD_TO_PARSE_TABLE (class * 256 + command) = Some [t] →
  tag_of t = Ok "O"%char →
  AssembleCommand SUBCMD_TO_PARSE_TABLE
    [VInt class; VInt command; VList (VInt <$> zs)]
  = Ok (class :: command :: zs)
  ∧ (ParseCommand SUBCMD_TO_PARSE_TABLE (class :: command :: zs)
     = Ok (VList [VList (VInt <$> zs)])
     ↔ length zs = 8%nat).
Proof.
  intros Hkey Ht. split.
  - unfold AssembleCommand.
    assert (getitem [VInt class; VInt command; VList (VInt <$> zs)] 0
            = Ok (VInt class)) as -> by reflexivity.
    assert (getitem [VInt class; VInt command; VList (VInt <$> zs)] 1
            = Ok (VInt command)) as -> by reflexivity.
    cbn [mbind result_bind as_int]. rewrite Hkey.
    cbn [assemble_fields].
    assert (getitem [VInt class; VInt command; VList (VInt <$> zs)] (0 + 2)
            = Ok (VList (VInt <$> zs))) as -> by reflexivity.
    cbn [mbind result_bind]. unfold assemble_field. rewrite Ht.
    cbn [mbind result_bind py_len extend_with].
    repeat (case_decide; [done|]). case_decide; [|done].
    cbn [mbind result_bind py_len extend_with].
    by rewrite ints_of_fmap_VInt.
  - unfold ParseCommand, _GetParameterDescriptors.
    destruct (Z.ltb_spec (len (class :: command :: zs)) 2) as [Hl|_].
    { unfold len in Hl. simpl in Hl. lia. }
    assert (getitem (class :: command :: zs) 0 = Ok class) as ->
      by reflexivity.
    assert (getitem (class :: command :: zs) 1 = Ok command) as ->
      by reflexivity.
    cbn [mbind result_bind]. rewrite Hkey. cbn [parse_fields]. rewrite Ht.
    cbn [mbind result_bind].
    change (_PARSE_ACTIONS "O") with (Some _ParseNonce).
    unfold _ParseNonce.
    replace (len (class :: command :: zs)) with (2 + len zs)
      by (unfold len; simpl; lia).
    destruct (Z.ltb_spec (2 + len zs) (2 + 8)) as [Hs|Hs].
    + cbn [mbind result_bind is_None]. split; [done|]. unfold len in Hs. lia.
    + cbn [mbind result_bind is_None app].
      change (class :: command :: zs) with ([class; command] ++ zs).
      rewrite <- (take_drop 8 zs) at 1.
      change 2 with (len [class; command]) at 1 2.
      assert (len (take 8 zs) = 8) as Ht8.
      { unfold len in *. rewrite length_take. lia. }
      rewrite <- Ht8 at 1. rewrite slice_app.
      split.
      * intros [= H]. apply (f_equal length) in H.
        rewrite !length_fmap, length_take in H. unfold len in Hs. lia.
      * intros H. by rewrite take_ge by lia.
Qed.
End NonceAndKey.

(** An instance: a nonce of three entries is encoded and does not come
    back. *)
Lemma nonce_roundtrip_iff_witness :
  let table : Z → option schema :=
    λ k, if k =? 0x9880 then Some ["O{nonce}"%string] else None in
  AssembleCommand table [VInt 0x98; VInt 0x80; VList (VInt <$> [1; 2; 3])]
  = Ok [0x98; 0x80; 1; 2; 3]
  ∧ (ParseCommand table [0x98; 0x80; 1; 2; 3]
     = Ok (VList [VList (VInt <$> [1; 2; 3])])
     ↔ length [1; 2; 3] = 8%nat).
Proof.
  intros table.
  apply (nonce_roundtrip_iff table 0x98 0x80 "O{nonce}" [1; 2; 3]);
    reflexivity.
Defined.

Section Key.
Variable SUBCMD_TO_PARSE_TABLE : Z → option schema.

(** X17: a network key can be sent and not received.  For a schema of
    one [K] entry the encoder puts a list of 16 integers in the frame
    and fails its assertion on a list of any other length; no frame of
    that command can be decoded, the look-up of the parser raises
    [KeyError] whatever the body. *)
Theorem key_sent_not_received (class command : Z) (t : string)
    (zs body : list Z) :
  SUBCMD_TO_PARSE_TABLE (class * 256 + command) = Some [t] →
  tag_of t = Ok "K"%char →
  AssembleCommand SUBCMD_TO_PARSE_TABLE
    [VInt class; VInt command; VList (VInt <$> zs)]
  = (if decide (length zs = 16%nat) then Ok (class :: command :: zs)
     else Raise AssertionError)
  ∧ ParseCommand SUBCMD_TO_PARSE_TABLE (class :: command :: body)
    = Raise KeyError.
Proof.
  intros Hkey Ht. split.
  - unfold AssembleCommand.
    assert (getitem [VInt class; VInt command; VList (VInt <$> zs)] 0
            = Ok (VInt class)) as -> by reflexivity.
    assert (getitem [VInt class; VInt command; VList (VInt <$> zs)] 1
            = Ok (VInt command)) as -> by reflexivity.
    cbn [mbind result_bind as_int]. rewrite Hkey.
    cbn [assemble_fields].
    assert (getitem [VInt class; VInt command; VList (VInt <$> zs)] (0 + 2)
            = Ok (VList (VInt <$> zs))) as -> by reflexivity.
    cbn [mbind result_bind]. unfold assemble_field. rewrite Ht.
    cbn [mbind result_bind py_len].
    repeat (case_decide; [done|]). case_decide; [|done].
    cbn [mbind result_bind py_len]. unfold len. rewrite length_fmap.
    case_decide as Hn.
    + rewrite Hn. cbn [mbind result_bind py_assert extend_with Z.eqb
                       Z.of_nat Pos.of_succ_nat Pos.succ Pos.eqb].
      cbn. by rewrite ints_of_fmap_VInt.
    + destruct (Z.eqb_spec (Z.of_nat (length zs)) 16) as [?|_]; [lia|done].
  - unfold ParseCommand, _GetParameterDescriptors.
    destruct (Z.ltb_spec (len (class :: command :: body)) 2) as [Hl|_].
    { unfold len in Hl. simpl in Hl. lia. }
    assert (getitem (class :: command :: body) 0 = Ok class) as ->
      by reflexivity.
    assert (getitem (class :: command :: body) 1 = Ok command) as ->
      by reflexivity.
    cbn [mbind result_bind]. rewrite Hkey. cbn [parse_fields]. by rewrite Ht.
Qed.
End Key.

(** An instance: a key of two entries. *)
Lemma key_sent_not_received_witness :
  let table : Z → option schema :=
    λ k, if k =? 0x9806 then Some ["K{key}"%string] else None in
  AssembleCommand table [VInt 0x98; VInt 0x06; VList (VInt <$> [1; 2])]
  = (if decide (length [1; 2] = 16%nat) then Ok [0x98; 0x06; 1; 2]
     else Raise AssertionError)
  ∧ ParseCommand table [0x98; 0x06; 1; 2] = Raise KeyError.
Proof.
  intros table.
  apply (key_sent_not_received table 0x98 0x06 "K{key}" [1; 2] [1; 2]);
    reflexivity.
Defined.

(** ** Resolution: the branches of [GetValue] *)

Lemma GetValue_map_list value a :
  GetValue value (VStr VALUE_TYPE_MAP_LIST :: a)
  = (kind ← pop0;
     v0 ← lift (py_getitem value 0);
     a2 ← action_item 2;
     rest ← lift (py_slice_from value 1);
     mret (new_Value v0 a2 rest)) a.
Proof. reflexivity. Qed.

Lemma GetValue_map_scalar value a :
  GetValue value (VStr VALUE_TYPE_MAP_SCALAR :: a)
  = (v0 ← lift (py_getitem value 0);
     a2 ← action_item 2;
     v1 ← lift (py_getitem value 1);
     mret (new_Value v0 a2 v1)) a.
Proof. reflexivity. Qed.

(** X18: the map branches subscript [action[2]] after the pops.  A
    map-list descriptor of fewer than 5 entries, and a map-scalar
    descriptor of fewer than 4, never resolves to a value, whatever the
    field list. *)
Theorem GetValue_map_descriptor_short (value : pyval) (tag : pystr)
    (a : list pyval) (v : Value) (rest : list pyval) :
  (tag = VALUE_TYPE_MAP_LIST ∧ (length a < 4)%nat)
  ∨ (tag = VALUE_TYPE_MAP_SCALAR ∧ (length a < 3)%nat) →
  GetValue value (VStr tag :: a) ≠ (Ok v, rest).
Proof.
  intros [[-> Hlen]|[-> Hlen]].
  - rewrite GetValue_map_list.
    destruct a as [|kind a]; [done|]. cbn [mbind act_bind pop0].
    unfold lift at 1. destruct (py_getitem value 0); [|done].
    unfold action_item.
    destruct a as [|x [|y [|z a]]]; try done. simpl in Hlen. lia.
  - rewrite GetValue_map_scalar. cbn [mbind act_bind].
    unfold lift at 1. destruct (py_getitem value 0); [|done].
    unfold action_item.
    destruct a as [|x [|y [|z a]]]; try done. simpl in Hlen. lia.
Qed.

(** An instance: the descriptor [["ItemMapList", "button"]]. *)
Lemma GetValue_map_descriptor_short_witness :
  GetValue (VList [VInt 1; VInt 2])
    [VStr VALUE_TYPE_MAP_LIST; VStr (str "button")]
  ≠ (Ok (new_Value (VInt 1) (VStr (str "button")) (VList [VInt 2])), []).
Proof.
  apply (GetValue_map_descriptor_short _ VALUE_TYPE_MAP_LIST
           [VStr (str "button")]).
  left. split; [reflexivity | simpl; lia].
Defined.

Lemma getitem_elem_of {A} (l : list A) i x : getitem l i = Ok x → x ∈ l.
Proof.
  unfold getitem. destruct (_ <? 0); [done|].
  destruct (l !! _) eqn:E; [|done]. intros [= <-].
  by eapply list_elem_of_lookup_2.
Qed.

Lemma row_unit_str info scale unit :
  row_unit info scale = Ok unit → is_None unit = false →
  ∃ u, unit = VStr u ∧ Some u ∈ info.2.
Proof.
  unfold row_unit. destruct (as_int scale) as [i|]; [|done].
  cbn [mbind result_bind].
  destruct (getitem info.2 i) as [[u|]|] eqn:E; cbn [fmap result_fmap unit_val];
    [|by intros [= <-]|done].
  intros [= <-] _. exists u. split; [done|]. by eapply getitem_elem_of.
Qed.

Lemma GetValue_sensor_normal value a :
  GetValue value (VStr VALUE_TYPE_SENSOR_NORMAL :: a)
  = (n ← lift (py_len value);
     _ ← lift (py_assert (n =? 2));
     kind ← lift (py_getitem value 0);
     info ← lift (as_int kind ≫= getitem SENSOR_TYPES);
     v1 ← lift (py_getitem value 1);
     n1 ← lift (py_len v1);
     _ ← lift (py_assert (n1 =? 2));
     '(scale, reading) ← lift (py_unpack2 v1);
     unit ← lift (row_unit info scale);
     _ ← lift (py_assert (negb (is_None unit)));
     mret (new_Value (VStr info.1) unit reading)) a.
Proof. reflexivity. Qed.

Lemma GetValue_meter_normal value a :
  GetValue value (VStr VALUE_TYPE_METER_NORMAL :: a)
  = (n ← lift (py_len value);
     _ ← lift (py_assert (n =? 1));
     val ← lift (py_getitem value 0);
     n5 ← lift (py_len val);
     _ ← lift (py_assert (n5 =? 5));
     kind ← lift (py_getitem val 0);
     scale ← lift (py_getitem val 1);
     info ← lift (as_int kind ≫= getitem METER_TYPES);
     unit ← lift (row_unit info scale);
     _ ← lift (py_assert (negb (is_None unit)));
     val2 ← lift (py_getitem val 2);
     val3 ← lift (py_getitem val 3);
     val4 ← lift (py_getitem val 4);
     mret (new_meter_Value (VStr info.1) unit val2 val3 val4)) a.
Proof. reflexivity. Qed.

(** One step of a computation that does not touch the action list. *)
Lemma lift_bind_Ok {A B} (r : result A) (f : A → act B) s y s' :
  (lift r ≫= f) s = (Ok y, s') → ∃ x, r = Ok x ∧ f x s = (Ok y, s').
Proof.
  unfold mbind, act_bind, lift. destruct r as [x|]; [eauto|done].
Qed.

Lemma py_assert_Ok b u : py_assert b = Ok u → b = true.
Proof. by destruct b. Qed.

(** X19: a value resolved by the sensor-normal branch has the label of
    a row of [SENSOR_TYPES] as its kind and a unit string of that row
    as its unit, never [None] nor a default; the branch takes nothing
    but the tag off the action list, and leaves the meter fields at
    their defaults. *)
Theorem GetValue_sensor_normal_resolved (value : pyval) (rest rest' : list pyval)
    (v : Value) :
  GetValue value (VStr VALUE_TYPE_SENSOR_NORMAL :: rest) = (Ok v, rest') →
  rest' = rest
  ∧ ∃ kind units unit,
      (kind, units) ∈ SENSOR_TYPES ∧ Some unit ∈ units
      ∧ Value_kind v = VStr kind ∧ Value_unit v = VStr unit
      ∧ Value_meter_time_delta v = VInt 0
      ∧ Value_meter_prev v = VFloat 0.
Proof.
  rewrite GetValue_sensor_normal.
  intros (n & _ & H)%lift_bind_Ok.
  apply lift_bind_Ok in H as (_ & _ & H).
  apply lift_bind_Ok in H as (kind & _ & H).
  apply lift_bind_Ok in H as (info & Hinfo & H).
  apply lift_bind_Ok in H as (v1 & _ & H).
  apply lift_bind_Ok in H as (n1 & _ & H).
  apply lift_bind_Ok in H as (_ & _ & H).
  apply lift_bind_Ok in H as ([scale reading] & _ & H).
  apply lift_bind_Ok in H as (unit & Hunit & H).
  apply lift_bind_Ok in H as (_ & Hn%py_assert_Ok%negb_true_iff & H).
  injection H as <- <-. split; [done|].
  destruct (row_unit_str _ _ _ Hunit Hn) as (u & -> & Hu).
  destruct (as_int kind) as [k|]; [|done]. cbn [mbind result_bind] in Hinfo.
  apply getitem_elem_of in Hinfo. destruct info as [label units].
  by exists label, units, u.
Qed.

(** An instance: a luminance reading in lux. *)
Lemma GetValue_sensor_normal_resolved_witness :
  [] = @nil pyval
  ∧ ∃ kind units unit,
      (kind, units) ∈ SENSOR_TYPES ∧ Some unit ∈ units
      ∧ VStr (str "Luminance") = VStr kind ∧ VStr (str "lux") = VStr unit
      ∧ VInt 0 = VInt 0
      ∧ VFloat 0 = VFloat 0.
Proof.
  apply (GetValue_sensor_normal_resolved
           (VList [VInt 3; VList [VInt 1; VFloat 120]]) [] []
           (new_Value (VStr (str "Luminance")) (VStr (str "lux")) (VFloat 120))).
  reflexivity.
Defined.

(** X20: a value resolved by the meter-normal branch has the label of a
    row of [METER_TYPES] as its kind and a unit string of that row as
    its unit; its value, time delta and previous value are the entries
    2, 3 and 4 of the one decoded field, which has 5 entries; only the
    tag is taken off the action list. *)
Theorem GetValue_meter_normal_resolved (value : pyval) (rest rest' : list pyval)
    (v : Value) :
  GetValue value (VStr VALUE_TYPE_METER_NORMAL :: rest) = (Ok v, rest') →
  rest' = rest
  ∧ ∃ val kind units unit,
      py_len value = Ok 1 ∧ py_getitem value 0 = Ok val ∧ py_len val = Ok 5
      ∧ (kind, units) ∈ METER_TYPES ∧ Some unit ∈ units
      ∧ Value_kind v = VStr kind ∧ Value_unit v = VStr unit
      ∧ py_getitem val 2 = Ok (Value_value v)
      ∧ py_getitem val 3 = Ok (Value_meter_time_delta v)
      ∧ py_getitem val 4 = Ok (Value_meter_prev v).
Proof.
  rewrite GetValue_meter_normal.
  intros (n & Hn & H)%lift_bind_Ok.
  apply lift_bind_Ok in H as (_ & Hn1%py_assert_Ok%Z.eqb_eq & H). subst n.
  apply lift_bind_Ok in H as (val & Hval & H).
  apply lift_bind_Ok in H as (n5 & Hn5 & H).
  apply lift_bind_Ok in H as (_ & H5%py_assert_Ok%Z.eqb_eq & H). subst n5.
  apply lift_bind_Ok in H as (kind & _ & H).
  apply lift_bind_Ok in H as (scale & _ & H).
  apply lift_bind_Ok in H as (info & Hinfo & H).
  apply lift_bind_Ok in H as (unit & Hunit & H).
  apply lift_bind_Ok in H as (_ & Hnn%py_assert_Ok%negb_true_iff & H).
  apply lift_bind_Ok in H as (val2 & H2 & H).
  apply lift_bind_Ok in H as (val3 & H3 & H).
  apply lift_bind_Ok in H as (val4 & H4 & H).
  injection H as <- <-. split; [done|].
  destruct (row_unit_str _ _ _ Hunit Hnn) as (u & -> & Hu).
  destruct (as_int kind) as [k|]; [|done]. cbn [mbind result_bind] in Hinfo.
  apply getitem_elem_of in Hinfo. destruct info as [label units].
  by exists val, label, units, u.
Qed.

(** An instance: an electric meter in kWh. *)
Lemma GetValue_meter_normal_resolved_witness :
  [] = @nil pyval
  ∧ ∃ val kind units unit,
      py_len (VList [VList [VInt 1; VInt 0; VFloat 10; VInt 5; VFloat 9]])
      = Ok 1
      ∧ py_getitem (VList [VList [VInt 1; VInt 0; VFloat 10; VInt 5; VFloat 9]]) 0
        = Ok val
      ∧ py_len val = Ok 5
      ∧ (kind, units) ∈ METER_TYPES ∧ Some unit ∈ units
      ∧ VStr (str "Electric") = VStr kind ∧ VStr (str "kWh") = VStr unit
      ∧ py_getitem val 2 = Ok (VFloat 10)
      ∧ py_getitem val 3 = Ok (VInt 5)
      ∧ py_getitem val 4 = Ok (VFloat 9).
Proof.
  apply (GetValue_meter_normal_resolved
           (VList [VList [VInt 1; VInt 0; VFloat 10; VInt 5; VFloat 9]]) [] []
           (new_meter_Value (VStr (str "Electric")) (VStr (str "kWh"))
              (VFloat 10) (VInt 5) (VFloat 9))).
  reflexivity.
Defined.

(** ** Decoded codes and their resolution *)

Lemma land_pow2 b j :
  0 ≤ j → Z.land b (2 ^ j) = if Z.testbit b j then 2 ^ j else 0.
Proof.
  intros Hj. apply Z.bits_inj'. intros k Hk.
  rewrite Z.land_spec, Z.pow2_bits_eqb by done.
  destruct (Z.eqb_spec j k) as [->|Hne].
  - destruct (Z.testbit b k); [by rewrite Z.pow2_bits_true|by rewrite Z.bits_0].
  - rewrite andb_false_r.
    destruct (Z.testbit b j); [|by rewrite Z.bits_0].
    rewrite Z.pow2_bits_eqb by done. by apply Z.eqb_neq in Hne as ->.
Qed.

Lemma land_3_range c : 0 ≤ Z.land c 3 ≤ 3.
Proof.
  assert (Z.land c 3 = c `mod` 4) as -> by apply (Z.land_ones c 2 ltac:(lia)).
  pose proof (Z.mod_pos_bound c 4). lia.
Qed.

Lemma land_31_range c : 0 ≤ Z.land c 31 ≤ 31.
Proof.
  assert (Z.land c 31 = c `mod` 32) as -> by apply (Z.land_ones c 5 ltac:(lia)).
  pose proof (Z.mod_pos_bound c 32). lia.
Qed.

(** The unit code of a reading: two bits of the reading header and the
    extra bit of the meter header. *)
Lemma reading_units_range b hdr :
  0 ≤ Z.lor (Z.shiftr (Z.land b 0x18) 3) (Z.shiftr (Z.land hdr 0x80) 5) ≤ 7.
Proof.
  rewrite !Z.shiftr_land.
  change (Z.shiftr 24 3) with 3. change (Z.shiftr 128 5) with (2 ^ 2).
  pose proof (land_3_range (Z.shiftr b 3)) as Hx.
  rewrite land_pow2 by lia.
  assert (Z.land (Z.shiftr b 3) 3 = 0 ∨ Z.land (Z.shiftr b 3) 3 = 1
          ∨ Z.land (Z.shiftr b 3) 3 = 2 ∨ Z.land (Z.shiftr b 3) 3 = 3)
    as [->|[->|[->| ->]]] by lia;
    destruct (Z.testbit _ 2); split; apply Z.leb_le; reflexivity.
Qed.

Lemma ParseSensor_field m index i fld :
  _ParseSensor m index = Ok (i, fld) →
  fld = VNone
  ∨ ∃ scale value, fld = VList [VInt scale; VFloat value] ∧ 0 ≤ scale ≤ 3.
Proof.
  unfold _ParseSensor.
  destruct (_ <? _); [intros [= _ <-]; by left|].
  destruct (getitem m index) as [c|]; [|done]. cbn [mbind result_bind].
  destruct (_ <? _); [intros [= _ <-]; by left|].
  destruct (_GetSignedValue _ _ _) as [f|]; [|done]. cbn [mbind result_bind].
  destruct (float_div_int _ _) as [y|]; [|done]. cbn [mbind result_bind].
  intros [= _ <-]. right. exists (Z.land (Z.shiftr c 3) 3), y.
  split; [done|]. apply land_3_range.
Qed.

Lemma GetReading_units m index hdr i u v :
  _GetReading m index (Z.shiftr (Z.land hdr 0x80) 5) = Ok (i, (u, v)) →
  0 ≤ u ≤ 7.
Proof.
  unfold _GetReading.
  destruct (getitem m index) as [b|]; [|done]. cbn [mbind result_bind].
  destruct (_GetSignedValue _ _ _) as [f|]; [|done]. cbn [mbind result_bind].
  destruct (float_div_int _ _) as [y|]; [|done]. cbn [mbind result_bind].
  intros [= _ <- _]. apply reading_units_range.
Qed.

Lemma ParseMeter_field m index i fld :
  _ParseMeter m index = Ok (i, fld) →
  ∃ meter_type rest,
    fld = VList (VInt meter_type :: rest) ∧ 0 ≤ meter_type ≤ 31
    ∧ (rest = [VNone; VNone; VNone]
       ∨ ∃ unit val1 dt val2,
           rest = [VInt unit; VFloat val1; dt; val2] ∧ 0 ≤ unit ≤ 7
           ∧ (dt = VNone ∨ ∃ d, dt = VInt d)
           ∧ (val2 = VNone ∨ ∃ f, val2 = VFloat f)).
Proof.
  unfold _ParseMeter, _ExtractValues.
  destruct (getitem m index) as [hdr|]; [|done]. cbn [mbind result_bind].
  destruct (_ <=? _).
  { cbn [mbind result_bind]. intros [= _ <-].
    exists (Z.land hdr 31), [VNone; VNone; VNone].
    split; [done|]. split; [apply land_31_range|by left]. }
  destruct (_GetReading _ _ _) as [[i1 [u v1]]|] eqn:E1; [|done].
  cbn [mbind result_bind]. apply GetReading_units in E1.
  assert (∀ i' dt val2, (dt = VNone ∨ ∃ d, dt = VInt d) →
            (val2 = VNone ∨ ∃ f, val2 = VFloat f) →
            Ok (i', VList (VInt (Z.land hdr 31) :: [VInt u; VFloat v1; dt; val2]))
            = Ok (i, fld) →
            ∃ meter_type rest,
              fld = VList (VInt meter_type :: rest) ∧ 0 ≤ meter_type ≤ 31
              ∧ (rest = [VNone; VNone; VNone]
                 ∨ ∃ unit val1 dt val2,
                     rest = [VInt unit; VFloat val1; dt; val2] ∧ 0 ≤ unit ≤ 7
                     ∧ (dt = VNone ∨ ∃ d, dt = VInt d)
                     ∧ (val2 = VNone ∨ ∃ f, val2 = VFloat f))) as K.
  { intros i' dt val2 Hdt Hv2 [= _ <-].
    exists (Z.land hdr 31), [VInt u; VFloat v1; dt; val2].
    split; [done|]. split; [apply land_31_range|].
    right. by exists u, v1, dt, val2. }
  destruct (i1 + 1 <? len m).
  - destruct (_GetTimeDelta m i1) as [[i2 d]|]; [|done].
    cbn [mbind result_bind].
    destruct (i2 <? len m).
    + destruct (_GetReading _ _ _) as [[i3 [u3 v3]]|]; [|done].
      cbn [mbind result_bind]. apply K; eauto.
    + cbn [mbind result_bind]. apply K; eauto.
  - cbn [mbind result_bind].
    destruct (i1 <? len m).
    + destruct (_GetReading _ _ _) as [[i3 [u3 v3]]|]; [|done].
      cbn [mbind result_bind]. apply K; eauto.
    + cbn [mbind result_bind]. apply K; eauto.
Qed.

(** X21: the codes that the reading parsers decode are in the range of
    their bit fields.  The scale of a sensor reading is from 0 to 3; a
    meter field starts with a meter type from 0 to 31, and when it
    holds a reading, its unit code is from 0 to 7, the reading and the
    previous reading are floats or [None], the time delta an integer or
    [None]. *)
Theorem decoded_codes_in_range (m : list Z) (index i : Z) (fld : pyval) :
  (_ParseSensor m index = Ok (i, fld) →
   fld = VNone
   ∨ ∃ scale value, fld = VList [VInt scale; VFloat value] ∧ 0 ≤ scale ≤ 3)
  ∧ (_ParseMeter m index = Ok (i, fld) →
     ∃ meter_type rest,
       fld = VList (VInt meter_type :: rest) ∧ 0 ≤ meter_type ≤ 31
       ∧ (rest = [VNone; VNone; VNone]
          ∨ ∃ unit val1 dt val2,
              rest = [VInt unit; VFloat val1; dt; val2] ∧ 0 ≤ unit ≤ 7
              ∧ (dt = VNone ∨ ∃ d, dt = VInt d)
              ∧ (val2 = VNone ∨ ∃ f, val2 = VFloat f))).
Proof. split; [apply ParseSensor_field | apply ParseMeter_field]. Qed.

(** Instances: a sensor reading, and a meter field with one reading. *)
Lemma decoded_codes_in_range_witness :
  (VList [VInt 0; VFloat 10] = VNone
   ∨ ∃ scale value,
       VList [VInt 0; VFloat 10] = VList [VInt scale; VFloat value]
       ∧ 0 ≤ scale ≤ 3)
  ∧ ∃ meter_type rest,
      VList [VInt 1; VInt 0; VFloat 10; VNone; VNone]
      = VList (VInt meter_type :: rest) ∧ 0 ≤ meter_type ≤ 31
      ∧ (rest = [VNone; VNone; VNone]
         ∨ ∃ unit val1 dt val2,
             rest = [VInt unit; VFloat val1; dt; val2] ∧ 0 ≤ unit ≤ 7
             ∧ (dt = VNone ∨ ∃ d, dt = VInt d)
             ∧ (val2 = VNone ∨ ∃ f, val2 = VFloat f)).
Proof.
  split.
  - apply (decoded_codes_in_range [0x22; 0x00; 0x64] 0 3
             (VList [VInt 0; VFloat 10])).
    reflexivity.
  - apply (decoded_codes_in_range [0x01; 0x22; 0x00; 0x64] 0 4
             (VList [VInt 1; VInt 0; VFloat 10; VNone; VNone])).
    reflexivity.
Defined.









(** ** Readings that are not negative *)

(** X24: the formula of a scaled sensor reading.  For a header byte
    whose size is the number of magnitude bytes that follow, at least
    one, and a magnitude whose top bit is clear, [_ParseSensor] returns
    the scale (bits 3 and 4 of the header) and the big-endian magnitude,
    converted to a float and divided by ten to the precision (bits 5 to
    7), and moves the cursor past the field. *)
Theorem ParseSensor_reading (pre post : list Z) (c b : Z) (l : list Z) :
  Z.land c 7 = len (b :: l) →
  Z.land b 0x80 = 0 →
  _ParseSensor (pre ++ (c :: b :: l) ++ post) (len pre)
  = (v ← float_of_int (_GetIntBigEndian (b :: l));
     value ← float_div_int v (10 ^ Z.land (Z.shiftr c 5) 7);
     Ok (len pre + 1 + len (b :: l),
         VList [VInt (Z.land (Z.shiftr c 3) 3); VFloat value])).
Proof.
  intros Hsize Hb. unfold _ParseSensor.
  pose proof (len_nonneg post). pose proof (len_nonneg l).
  rewrite !len_app.
  replace (len (c :: b :: l)) with (len l + 2) by (unfold len; simpl; lia).
  replace (len (b :: l)) with (len l + 1) in * by (unfold len; simpl; lia).
  destruct (Z.ltb_spec (len pre + (len l + 2 + len post)) (len pre + 2));
    [lia|].
  rewrite (getitem_app_0 pre _ c) by done. cbn [mbind result_bind].
  rewrite Hsize.
  destruct (Z.ltb_spec (len pre + (len l + 2 + len post))
              (len pre + 1 + (len l + 1))); [lia|].
  replace (pre ++ (c :: b :: l) ++ post)
    with ((pre ++ [c]) ++ (b :: l) ++ post) by (by rewrite <- app_assoc).
  replace (len pre + 1) with (len (pre ++ [c]))
    by (rewrite len_app; reflexivity).
  pose proof (GetSignedValue_top_bit_clear (pre ++ [c]) b l post Hb) as G.
  replace (len (b :: l)) with (len l + 1) in G by (unfold len; simpl; lia).
  by rewrite G.
Qed.

(** An instance: precision 1, scale 0, size 2, magnitude 100. *)
Lemma ParseSensor_reading_witness :
  _ParseSensor ([0x31; 0x05] ++ [0x22; 0x00; 0x64] ++ []) 2
  = Ok (5, VList [VInt 0; VFloat 10]).
Proof.
  apply (ParseSensor_reading [0x31; 0x05] [] 0x22 0x00 [0x64]); reflexivity.
Defined.

(** ** Tags with no parser, tags with no encoder *)

Lemma parse_fields_no_parser table t c :
  t ∈ table → tag_of t = Ok c → _PARSE_ACTIONS c = None →
  ∀ m index out0 out, parse_fields table m index out0 ≠ Ok (VList out).
Proof.
  intros Hin Ht Hc. induction table as [|t' table IH]; intros m index out0 out.
  { by apply elem_of_nil in Hin. }
  cbn [parse_fields].
  apply elem_of_cons in Hin as [<-|Hin].
  { by rewrite Ht; cbn [mbind result_bind]; rewrite Hc. }
  destruct (tag_of t') as [c'|]; [|done]. cbn [mbind result_bind].
  destruct (_PARSE_ACTIONS c') as [p|]; [|done].
  destruct (p m index) as [[i v]|]; [|done]. cbn [mbind result_bind].
  destruct (is_None v); [done|]. by apply IH.
Qed.

Lemma assemble_field_no_encoder t c v data :
  tag_of t = Ok c →
  c ∉ ["B"; "Y"; "N"; "K"; "D"; "L"; "C"; "O"; "V"]%char →
  assemble_field t v data = Raise AssertionError.
Proof.
  intros Ht Hc. unfold assemble_field. rewrite Ht. cbn [mbind result_bind].
  repeat (case_decide; [try done; subst c; exfalso; apply Hc;
                             by apply (bool_decide_unpack _)|]).
  done.
Qed.

Lemma assemble_fields_no_encoder table t c :
  t ∈ table → tag_of t = Ok c →
  c ∉ ["B"; "Y"; "N"; "K"; "D"; "L"; "C"; "O"; "V"]%char →
  ∀ raw_cmd i data frame, assemble_fields table raw_cmd i data ≠ Ok frame.
Proof.
  intros Hin Ht Hc.
  induction table as [|t' table IH]; intros raw_cmd i data frame.
  { by apply elem_of_nil in Hin. }
  cbn [assemble_fields].
  destruct (getitem raw_cmd (i + 2)) as [v|]; [|done]. cbn [mbind result_bind].
  apply elem_of_cons in Hin as [<-|Hin].
  { by rewrite (assemble_field_no_encoder t c v data Ht Hc). }
  destruct (assemble_field t' v data); [|done]. cbn [mbind result_bind].
  by apply IH.
Qed.

Section OneWayTags.
Variable SUBCMD_TO_PARSE_TABLE : Z → option schema.

(** X25: a schema works in a direction only with tags of that direction.
    If an entry of the registered schema has a tag with no parser in
    [_PARSE_ACTIONS], [ParseCommand] returns a field list for no frame
    of that command; if it has a tag other than [B], [Y], [N], [K],
    [D], [L], [C], [O] and [V], [AssembleCommand] returns a frame for no
    arguments. *)
Theorem schema_tag_one_way (class command : Z) (table : schema) (t : string)
    (c : ascii) :
  SUBCMD_TO_PARSE_TABLE (class * 256 + command) = Some table →
  t ∈ table →
  tag_of t = Ok c →
  (_PARSE_ACTIONS c = None →
   ∀ body out,
     ParseCommand SUBCMD_TO_PARSE_TABLE (class :: command :: body)
     ≠ Ok (VList out))
  ∧ (c ∉ ["B"; "Y"; "N"; "K"; "D"; "L"; "C"; "O"; "V"]%char →
     ∀ args frame,
       AssembleCommand SUBCMD_TO_PARSE_TABLE
         (VInt class :: VInt command :: args) ≠ Ok frame).
Proof.
  intros Hkey Hin Ht. split.
  - intros Hc body out. unfold ParseCommand, _GetParameterDescriptors.
    destruct (Z.ltb_spec (len (class :: command :: body)) 2) as [Hl|_].
    { unfold len in Hl. simpl in Hl. lia. }
    assert (getitem (class :: command :: body) 0 = Ok class) as ->
      by reflexivity.
    assert (getitem (class :: command :: body) 1 = Ok command) as ->
      by reflexivity.
    cbn [mbind result_bind]. rewrite Hkey.
    by apply (parse_fields_no_parser table t c).
  - intros Hc args frame. unfold AssembleCommand.
    assert (getitem (VInt class :: VInt command :: args) 0 = Ok (VInt class))
      as -> by reflexivity.
    assert (getitem (VInt class :: VInt command :: args) 1 = Ok (VInt command))
      as -> by reflexivity.
    cbn [mbind result_bind as_int]. rewrite Hkey.
    by apply (assemble_fields_no_encoder table t c).
Qed.
End OneWayTags.

(** Instances: a word after a byte cannot be encoded, a key cannot be
    decoded. *)
Lemma schema_tag_one_way_witness :
  let table : Z → option schema :=
    λ k, if k =? 0x8407 then Some ["B{a}"; "W{interval}"]%string
         else if k =? 0x9806 then Some ["K{key}"%string] else None in
  AssembleCommand table (VInt 0x84 :: VInt 0x07 :: [VInt 1; VInt 600])
  ≠ Ok [0x84; 0x07; 1; 2; 88]
  ∧ ParseCommand table (0x98 :: 0x06 :: [1; 2]) ≠ Ok (VList [VInt 1]).
Proof.
  intros table. split.
  - apply (schema_tag_one_way table 0x84 0x07 ["B{a}"; "W{interval}"]%string
             "W{interval}" "W");
      [reflexivity | by apply (bool_decide_unpack _) | reflexivity
      | by apply (bool_decide_unpack _)].
  - apply (schema_tag_one_way table 0x98 0x06 ["K{key}"%string] "K{key}" "K");
      [reflexivity | by apply (bool_decide_unpack _) | reflexivity
      | reflexivity].
Defined.

(** ** Names in a single-byte encoding *)

Lemma py_bytes_bytes l : Forall (λ b, 0 ≤ b < 256) l → py_bytes l = Ok l.
Proof.
  intros Hl. unfold py_bytes.
  assert (forallb (λ b, (0 <=? b) && (b <? 256)) l = true) as ->; [|done].
  apply forallb_forall. intros b Hb%list_elem_of_In.
  pose proof (proj1 (Forall_forall _ _) Hl b Hb). cbn beta in *.
  apply andb_true_intro. split; [apply Z.leb_le|apply Z.ltb_lt]; lia.
Qed.

(** X26: a name in Latin-1 (selector 1) or ASCII (selector 0).  The
    parser takes all the bytes after the selector byte, to the end of
    the frame, and leaves the cursor at the end.  In Latin-1 every byte
    is a character and decoding cannot fail; in ASCII the name is
    returned if all its bytes are below 128, and [UnicodeDecodeError]
    is raised otherwise. *)
Theorem ParseName_single_byte (pre rest : list Z) (b0 : Z) :
  Forall (λ b, 0 ≤ b < 256) rest →
  (Z.land b0 3 = 1 →
   _ParseName (pre ++ b0 :: rest) (len pre)
   = Ok (len (pre ++ b0 :: rest), VStr rest))
  ∧ (Z.land b0 3 = 0 →
     _ParseName (pre ++ b0 :: rest) (len pre)
     = if forallb (λ c, c <? 128) rest
       then Ok (len (pre ++ b0 :: rest), VStr rest)
       else Raise UnicodeDecodeError).
Proof.
  intros Hrest.
  assert (∀ sel, Z.land b0 3 = sel →
    _ParseName (pre ++ b0 :: rest) (len pre)
    = (c ← getitem _ENCODING_TO_DECODER sel;
       s ← bytes_decode rest c;
       Ok (len (pre ++ b0 :: rest), VStr s))) as E.
  { intros sel <-. unfold _ParseName.
    pose proof (len_nonneg rest). pose proof (len_nonneg pre).
    assert ((len pre <? len (pre ++ b0 :: rest)) = true) as ->.
    { apply Z.ltb_lt. rewrite len_app.
      replace (len (b0 :: rest)) with (len rest + 1)
        by (unfold len; simpl; lia).
      lia. }
    cbn [py_assert mbind result_bind].
    rewrite (getitem_app_0 pre _ b0) by done. cbn [mbind result_bind].
    assert (slice_from (pre ++ b0 :: rest) (len pre + 1) = rest) as ->.
    { rewrite slice_from_drop by lia.
      replace (pre ++ b0 :: rest) with ((pre ++ [b0]) ++ rest)
        by (by rewrite <- app_assoc).
      replace (Z.to_nat (len pre + 1)) with (length (pre ++ [b0]))
        by (rewrite length_app; unfold len; simpl; lia).
      apply drop_app_length. }
    by rewrite py_bytes_bytes. }
  split; intros Hsel; rewrite (E _ Hsel).
  - reflexivity.
  - change (getitem _ENCODING_TO_DECODER 0) with (Ok ascii_codec).
    cbn [mbind result_bind bytes_decode]. unfold decode_ascii.
    by destruct (forallb _ rest).
Qed.

(** Instances: a Latin-1 name with a byte above 127, and the same bytes
    read as ASCII. *)
Lemma ParseName_single_byte_witness :
  _ParseName ([0x77; 0x03] ++ 1 :: [0x4B; 0xFC]) 2
  = Ok (5, VStr [0x4B; 0xFC])
  ∧ _ParseName ([0x77; 0x03] ++ 0 :: [0x4B; 0xFC]) 2
    = Raise UnicodeDecodeError.
Proof.
  split.
  - apply (ParseName_single_byte [0x77; 0x03] [0x4B; 0xFC] 1);
      [repeat constructor; lia | reflexivity].
  - apply (ParseName_single_byte [0x77; 0x03] [0x4B; 0xFC] 0);
      [repeat constructor; lia | reflexivity].
Defined.

(** ** The order of values *)

Lemma str_lt_irrefl s : str_lt s s = false.
Proof.
  induction s as [|a s IH]; [done|]. cbn [str_lt].
  by rewrite Z.ltb_irrefl.
Qed.

Lemma str_lt_trans s : ∀ t u,
  str_lt s t = true → str_lt t u = true → str_lt s u = true.
Proof.
  induction s as [|a s IH]; intros [|b t] [|c u]; try done.
  cbn [str_lt].
  destruct (Z.ltb_spec a b), (Z.ltb_spec b a), (Z.ltb_spec b c),
    (Z.ltb_spec c b), (Z.ltb_spec a c), (Z.ltb_spec c a);
    try done; try lia.
  apply IH.
Qed.

Lemma str_lt_asym s : ∀ t, str_lt s t = true → str_lt t s = false.
Proof.
  induction s as [|a s IH]; intros [|b t]; try done.
  cbn [str_lt].
  destruct (Z.ltb_spec a b), (Z.ltb_spec b a); try done; try lia.
  apply IH.
Qed.

Lemma str_lt_total s : ∀ t,
  str_lt s t = false → str_lt t s = false → s = t.
Proof.
  induction s as [|a s IH]; intros [|b t]; try done.
  cbn [str_lt].
  destruct (Z.ltb_spec a b), (Z.ltb_spec b a); try done.
  intros H1 H2. assert (a = b) as -> by lia. f_equal. by apply IH.
Qed.

Lemma Value_lt_labelled k1 u1 x1 p1 d1 k2 u2 x2 p2 d2 :
  Value__lt__ (mkValue (VStr k1) (VStr u1) x1 p1 d1)
    (mkValue (VStr k2) (VStr u2) x2 p2 d2)
  = Ok (if decide (k1 = k2)
        then if decide (u1 = u2) then false else str_lt u1 u2
        else str_lt k1 k2).
Proof.
  unfold Value__lt__.
  cbn [Value_kind Value_unit py_ne py_lt mbind result_bind].
  destruct (decide (k1 = k2)) as [->|Hk].
  - rewrite bool_decide_eq_true_2 by done. cbn [negb].
    destruct (decide (u1 = u2)) as [->|Hu].
    + by rewrite bool_decide_eq_true_2.
    + by rewrite bool_decide_eq_false_2.
  - by rewrite bool_decide_eq_false_2.
Qed.

(** X27: [Value.__lt__] on values whose kind and unit are strings
    orders them by kind and then by unit, as a strict weak order: the
    comparison returns a boolean; no value is less than itself; [<] is
    asymmetric and transitive; and two values of which neither is less
    have the same kind and the same unit, whatever their readings. *)
Theorem Value_lt_strict_weak_order (a b c : Value) :
  str_labelled a = true → str_labelled b = true → str_labelled c = true →
  (∃ r, Value__lt__ a b = Ok r)
  ∧ Value__lt__ a a = Ok false
  ∧ (Value__lt__ a b = Ok true → Value__lt__ b a = Ok false)
  ∧ (Value__lt__ a b = Ok true → Value__lt__ b c = Ok true →
     Value__lt__ a c = Ok true)
  ∧ (Value__lt__ a b = Ok false → Value__lt__ b a = Ok false →
     Value_kind a = Value_kind b ∧ Value_unit a = Value_unit b).
Proof.
  destruct a as [[] [] xa pa da], b as [[] [] xb pb db],
    c as [[] [] xc pc dc]; try done.
  intros _ _ _. rewrite !Value_lt_labelled. cbn [Value_kind Value_unit].
  split; [eauto|]. split; [by rewrite !decide_True|].
  split; [|split].
  - repeat case_decide; subst; try done; intros [= E]; f_equal;
      by apply str_lt_asym.
  - repeat case_decide; subst; try done; intros [= E1] [= E2];
      try (by rewrite (str_lt_trans _ _ _ E1 E2));
      try (by rewrite (str_lt_asym _ _ E1) in E2);
      pose proof (str_lt_trans _ _ _ E1 E2) as E3;
      by rewrite str_lt_irrefl in E3.
  - repeat case_decide; subst; try done; intros [= E1] [= E2];
      by rewrite (str_lt_total _ _ E1 E2) in *.
Qed.

(** An instance: a humidity and a temperature. *)
Lemma Value_lt_strict_weak_order_witness :
  let h := new_Value (VStr (str "Relative Humidity")) (VStr (str "%"))
             (VFloat 40) in
  let t := new_Value (VStr (str "Temperature")) (VStr (str "C")) (VFloat 21) in
  Value__lt__ h h = Ok false
  ∧ (Value__lt__ h t = Ok true → Value__lt__ t h = Ok false).
Proof.
  intros h t.
  destruct (Value_lt_strict_weak_order h t t) as (_ & H1 & H2 & _);
    [reflexivity | reflexivity | reflexivity |].
  split; [exact H1 | exact H2].
Defined.

(** ** Names of door lock events *)

Example EventTypeToString_unknown :
  EventTypeToString 200 = Ok (str "@UNKNOWN_EVENT[200]@").
Proof. reflexivity. Qed.

(** X28: [EventTypeToString] on every integer.  The codes 0 to 30 give
    their entry of [DOOR_LOG_EVENT_TYPE], and the codes from 31 on the
    text [@UNKNOWN_EVENT[t]@] with the code in decimal.  A negative code
    is not reported as unknown: from -1 down to -31 it gives the entry
    counted from the end of the table, and below -31 the subscript
    raises [IndexError]. *)
Theorem EventTypeToString_cases (t : Z) :
  (0 ≤ t < 31 →
   ∃ s, DOOR_LOG_EVENT_TYPE !! Z.to_nat t = Some s
        ∧ EventTypeToString t = Ok s)
  ∧ (31 ≤ t →
     EventTypeToString t
     = Ok (str "@UNKNOWN_EVENT[" ++ format_d t ++ str "]@"))
  ∧ (-31 ≤ t < 0 →
     ∃ s, DOOR_LOG_EVENT_TYPE !! Z.to_nat (t + 31) = Some s
          ∧ EventTypeToString t = Ok s)
  ∧ (t < -31 → EventTypeToString t = Raise IndexError).
Proof.
  unfold EventTypeToString. change (len DOOR_LOG_EVENT_TYPE) with 31.
  repeat split.
  - intros Ht. destruct (Z.ltb_spec t 31); [|lia].
    destruct (getitem_in_range DOOR_LOG_EVENT_TYPE t) as [s Hs];
      [change (len DOOR_LOG_EVENT_TYPE) with 31; lia|].
    exists s. split; [|done]. apply getitem_lookup_nonneg; [lia|done].
  - intros Ht. by destruct (Z.ltb_spec t 31); [lia|].
  - intros Ht. destruct (Z.ltb_spec t 31); [|lia].
    unfold getitem. change (len DOOR_LOG_EVENT_TYPE) with 31.
    destruct (Z.ltb_spec t 0); [|lia].
    destruct (Z.ltb_spec (t + 31) 0); [lia|].
    destruct (lookup_lt_is_Some_2 DOOR_LOG_EVENT_TYPE (Z.to_nat (t + 31)))
      as [s Hs]; [change (length DOOR_LOG_EVENT_TYPE) with 31%nat; lia|].
    exists s. by rewrite Hs.
  - intros Ht. destruct (Z.ltb_spec t 31); [|lia].
    unfold getitem. change (len DOOR_LOG_EVENT_TYPE) with 31.
    destruct (Z.ltb_spec t 0); [|lia].
    by destruct (Z.ltb_spec (t + 31) 0); [|lia].
Qed.

(** Instances: the last code of the table, and the code -1. *)
Lemma EventTypeToString_cases_witness :
  (∃ s, DOOR_LOG_EVENT_TYPE !! Z.to_nat 30 = Some s
        ∧ EventTypeToString 30 = Ok s)
  ∧ (∃ s, DOOR_LOG_EVENT_TYPE !! Z.to_nat (-1 + 31) = Some s
          ∧ EventTypeToString (-1) = Ok s).
Proof.
  split.
  - apply (EventTypeToString_cases 30). lia.
  - apply (EventTypeToString_cases (-1)). lia.
Defined.

(** ** What a resolution takes off the action list *)

Lemma pop0_bind_Ok {B} (f : pyval → act B) s y s' :
  (pop0 ≫= f) s = (Ok y, s') → ∃ x s1, s = x :: s1 ∧ f x s1 = (Ok y, s').
Proof.
  unfold mbind, act_bind, pop0. destruct s as [|x s1]; [done|eauto].
Qed.

Lemma action_item_bind_Ok {B} i (f : pyval → act B) s y s' :
  (action_item i ≫= f) s = (Ok y, s') →
  ∃ x, getitem s i = Ok x ∧ f x s = (Ok y, s').
Proof.
  unfold mbind, act_bind, action_item. destruct (getitem s i); [eauto|done].
Qed.

Ltac resolve_step H :=
  first
    [ apply lift_bind_Ok in H as (? & _ & H)
    | apply pop0_bind_Ok in H as (? & ? & -> & H)
    | apply action_item_bind_Ok in H as (? & _ & H)
    | match type of H with
      | context [match ?p with pair _ _ => _ end] => destruct p
      end ].

(** X29: a successful resolution removes from the action list the tag
    and the entries of its branch, and nothing else: one more entry for
    the scalar, list and map-list tags, two more for the constant and
    sensor-value tags, none for the sensor-normal, meter-normal and
    map-scalar tags.  The list passed is changed in place, so a
    descriptor that is to be used again has to be copied first. *)
Theorem GetValue_pops (value t : pyval) (a rest : list pyval) (v : Value) :
  GetValue value (t :: a) = (Ok v, rest) →
  rest = drop (pops t) a ∧ (pops t ≤ length a)%nat.
Proof.
  change (GetValue value (t :: a)) with (GetValue_branches t value a).
  unfold GetValue_branches, pops.
  repeat (destruct (eq_str t _); [intros H; repeat resolve_step H|]);
    [ unfold mret, act_ret in H; injection H as _ <-;
      simpl; (split; [done|lia]) ..
    | unfold lift; by intros [=] ].
Qed.

(** An instance: the constant descriptor of a wake-up notification. *)
Lemma GetValue_pops_witness :
  [VStr (str "StateChange")]
  = drop (pops (VStr VALUE_TYPE_CONST))
      [VStr (str "WakeUp"); VInt 1; VStr (str "StateChange")]
  ∧ (pops (VStr VALUE_TYPE_CONST)
     ≤ length [VStr (str "WakeUp"); VInt 1; VStr (str "StateChange")])%nat.
Proof.
  apply (GetValue_pops (VList []) (VStr VALUE_TYPE_CONST)
           [VStr (str "WakeUp"); VInt 1; VStr (str "StateChange")]
           [VStr (str "StateChange")]
           (new_Value (VStr (str "WakeUp")) (VStr UNIT_NONE) (VInt 1))).
  reflexivity.
Defined.
